(** * homebridge-ewelink: expiring cache, websocket session and blind motion engine

    A shallow embedding of parts of the plugin:

    - [Cache]            the TTL cache of [cache.ts];
    - [WebSocketClient]  sequence numbers, message decoding, reconnection and
                         the cached status query of the websocket client;
    - [Blinds]           the window-covering emulation of [commonApi.ts]
                         ([getBlindState], [setTargetPosition],
                         [setFinalBlindsState], [updateBlindStateCharacteristic],
                         [getPositionState], [actualPosition]) and its timers;
    - [Double], [Blinds64]  [setTargetPosition] and [actualPosition] once
                         more, over IEEE doubles;
    - [Session]          [updateDeviceStatus] and repeated reconnection of
                         the websocket client;
    - [Fan], [Devices]   the fan with light ([setFanSpeed], [getFanSpeed],
                         [updateFanSpeedCharacteristic], [setFanLightState],
                         [processSwitchState]) and the tables of device types
                         and channel counts;
    - [CacheOps]         histories of a cache.

    Conventions.  Clock readings ([Date.now()]) and timer delays are
    integers ([Z]).  In [Blinds] the numeric fields of an accessory context
    are rationals ([Q]) and [Math.round x] is [floor (x + 1/2)]: this is
    used for what depends on comparisons only, or on values that doubles
    represent exactly.  In [Blinds64] the same fields are doubles and every
    operation rounds as in the plugin: this is used for the computed drive
    time and position estimate.  Timers ([setTimeout], [setInterval]) are
    explicit entries of a timer queue that an event loop fires in order of
    due time; [setTimeout] sets a delay outside 1 .. 2^31 - 1 to 1.  A
    callback written as a plain [function] is run with the object that
    calls it as [this], an arrow function with the [this] of the method it
    is written in.  An object is the list of its properties in the order
    in which JavaScript enumerates them. *)

From Stdlib Require Import ZArith QArith Qround Qabs String List Lia Lqa Floats.
From Stdlib Require Import DecimalString DecimalZ Permutation.
From stdpp Require Import gmap strings list fin_maps.

(* ===================================================================== *)
(** * The expiring cache ([Cache<T>]) *)
(* ===================================================================== *)

Module Cache.
Section WithValue.
Context {T : Type}.

(** A [NodeJS.Timeout] armed by [Cache.set]: its handle, the instant at
    which it is due and the key its callback closes over. *)
Record Timeout := mkTimeout { timerId : nat; due : Z; timerKey : string }.

Record t := mk {
  cacheMap : gmap string T;
  timerMap : gmap string nat;
  (* timers armed and neither fired nor cleared, in creation order *)
  pending : list Timeout;
  (* next fresh timer handle *)
  nextTimer : nat;
  (* 'expiry' events emitted so far: instant and the key passed to the
     listeners *)
  emitted : list (Z * string);
  defaultCacheDuration : Z
}.

(** [new Cache(log)]: the default duration is 500 ms. *)
Definition create (defaultDuration : Z) : t :=
  mk ∅ ∅ [] 0 [] defaultDuration.

Definition get (key : string) (c : t) : option T := cacheMap c !! key.

Definition clearTimeout (id : nat) (c : t) : t :=
  mk (cacheMap c) (timerMap c)
     (filter (λ x, timerId x ≠ id) (pending c))
     (nextTimer c) (emitted c) (defaultCacheDuration c).

Definition _clearTimer (key : string) (c : t) : t :=
  match timerMap c !! key with
  | Some existingTimerId => clearTimeout existingTimerId c
  | None => c
  end.

(** The delay [setTimeout(callback, ms)] arms its timer with: Node sets a
    delay below 1 or above [TIMEOUT_MAX] (2^31 - 1) to 1. *)
Definition TIMEOUT_MAX : Z := 2147483647.

Definition timerDelay (ms : Z) : Z :=
  if decide (1 ≤ ms ≤ TIMEOUT_MAX)%Z then ms else 1.

(** [set(key, value, cacheDuration)] called at instant [now]. *)
Definition set (now : Z) (key : string) (value : T) (cacheDuration : Z) (c : t) : t :=
  let c1 := _clearTimer key c in
  let timerId := nextTimer c1 in
  mk (<[key := value]> (cacheMap c1))
     (<[key := timerId]> (timerMap c1))
     (pending c1 ++ [mkTimeout timerId (now + timerDelay cacheDuration) key])
     (S timerId) (emitted c1) (defaultCacheDuration c1).

Definition set_default (now : Z) (key : string) (value : T) (c : t) : t :=
  set now key value (defaultCacheDuration c) c.

Definition delete (key : string) (c : t) : t :=
  _clearTimer key
    (mk (base.delete key (cacheMap c)) (timerMap c) (pending c)
        (nextTimer c) (emitted c) (defaultCacheDuration c)).

(** The callback given to [setTimeout] in [set]. *)
Definition fire (x : Timeout) (c : t) : t :=
  let removed := bool_decide (is_Some (cacheMap c !! timerKey x)) in
  mk (base.delete (timerKey x) (cacheMap c)) (timerMap c) (pending c)
     (nextTimer c)
     (if removed then emitted c ++ [(due x, timerKey x)] else emitted c)
     (defaultCacheDuration c).

(** The timer queue: callbacks run in order of due time, ties in creation
    order. *)
Fixpoint insert_timer (x : Timeout) (l : list Timeout) : list Timeout :=
  match l with
  | [] => [x]
  | y :: l' => if decide (due x < due y)%Z then x :: l else y :: insert_timer x l'
  end.

Definition sort_timers (l : list Timeout) : list Timeout :=
  foldr insert_timer [] (reverse l).

Definition run (l : list Timeout) (c : t) : t := foldl (λ c x, fire x c) c l.

(** Let the clock reach [upto]: every pending timer that is due fires. *)
Definition advance (upto : Z) (c : t) : t :=
  let ready := filter (λ x, (due x ≤ upto)%Z) (pending c) in
  let later := filter (λ x, ¬ (due x ≤ upto)%Z) (pending c) in
  run (sort_timers ready)
      (mk (cacheMap c) (timerMap c) later (nextTimer c) (emitted c)
          (defaultCacheDuration c)).

(** The expiry events a listener has seen for one key. *)
Definition expiry_events (key : string) (c : t) : list (Z * string) :=
  filter (λ e, e.2 = key) (emitted c).

(** What an observer of one key can see of a cache. *)
Definition obs (key : string) (c : t) : option T * list (Z * string) :=
  (cacheMap c !! key, expiry_events key c).

(** At most one live timer per key: every pending timer is the one
    recorded for its key. *)
Definition wf (c : t) : Prop :=
  ∀ x, x ∈ pending c → timerMap c !! timerKey x = Some (timerId x).

End WithValue.
Arguments t : clear implicits.
End Cache.

(* ===================================================================== *)
(** * JavaScript objects as ordered property lists *)
(* ===================================================================== *)

Module Js.

#[warnings="-register-all"]
Inductive JsValue :=
| JStr (s : string)
| JArr (l : list JsValue)
| JObj (o : list (string * JsValue)).

Abbreviation Obj := (list (string * JsValue)).

Fixpoint obj_get (k : string) (o : Obj) : option JsValue :=
  match o with
  | [] => None
  | (k', v) :: o' => if String.eqb k k' then Some v else obj_get k o'
  end.

(** The array index a property key denotes, if any: the canonical decimal
    text of an integer from 0 to 2^32 - 2. *)
Definition array_index (k : string) : option N :=
  match NilZero.uint_of_string k with
  | Some u =>
      let n := N.of_uint u in
      if String.eqb (NilZero.string_of_uint (N.to_uint n)) k && (n <=? 4294967294)%N
      then Some n else None
  | None => None
  end.

(** [o[k] = v] for a key the object has: the property keeps its place. *)
Fixpoint obj_replace (k : string) (v : JsValue) (o : Obj) : Obj :=
  match o with
  | [] => []
  | (k', v') :: o' =>
      if String.eqb k k' then (k', v) :: o' else (k', v') :: obj_replace k v o'
  end.

(** [o[k] = v] for a new key.  The properties of an object are listed with
    the array indices first, in ascending order, and the other keys after
    them in the order of their creation. *)
Fixpoint obj_add (k : string) (v : JsValue) (o : Obj) : Obj :=
  match o with
  | [] => [(k, v)]
  | (k', v') :: o' =>
      let before :=
        match array_index k, array_index k' with
        | Some n, Some n' => (n <? n')%N
        | Some _, None => true
        | None, _ => false
        end in
      if before then (k, v) :: o else (k', v') :: obj_add k v o'
  end.

(** [o[k] = v] *)
Definition obj_set (k : string) (v : JsValue) (o : Obj) : Obj :=
  match obj_get k o with
  | Some _ => obj_replace k v o
  | None => obj_add k v o
  end.

(** [Object.assign(target, source)]: the own properties of [source], in
    order, are written onto [target]. *)
Definition Object_assign (target source : Obj) : Obj :=
  foldl (λ acc kv, obj_set kv.1 kv.2 acc) target source.

(** Exceptions: a computation either returns or throws. *)
Inductive Res (A : Type) :=
| Ok (a : A)
| Throw (msg : string).
Arguments Ok {A} a.
Arguments Throw {A} msg.

Definition bind {A B} (m : Res A) (k : A → Res B) : Res B :=
  match m with
  | Ok a => k a
  | Throw msg => Throw msg
  end.

End Js.

Notation "x <-- m ;; k" := (Js.bind m (λ x, k))
  (at level 100, m at next level, right associativity).

(* ===================================================================== *)
(** * The websocket client *)
(* ===================================================================== *)

Module WebSocketClient.
Import Js.

Abbreviation BaseDevice := (list (string * JsValue)).

(** ["" + Date.now()] with the clock reading [now]. *)
Definition getSequence (now : Z) : string :=
  NilZero.string_of_int (Z.to_int now).

(** The number a sequence string denotes. *)
Definition sequenceValue (s : string) : option Z :=
  Z.of_int <$> NilZero.int_of_string s.

(** ** Options handed to the websocket wrapper in [open] *)

Definition attachRequestId (data : Obj) (requestId : string) : Obj :=
  Object_assign [("sequence"%string, JStr requestId)] data.

Definition extractRequestId (data : Obj) : option JsValue :=
  obj_get "sequence" data.

(** Primitive calls made by the decoder, in order. *)
Inductive Call :=
| LogDebug (fmt arg : string)
| JsonParse (text : string).

Inductive Unpacked :=
| Heartbeat (data : string)
| Json (parsed : Res JsValue).

Section Decoder.
(** [JSON.parse]: total on well-formed text, throws otherwise. *)
Variable JSON_parse : string → Res JsValue.

Definition unpackMessage (data : string) : list Call * Unpacked :=
  let calls := [LogDebug "unpackMessage: %s" data] in
  if String.eqb data "pong" then
    (calls, Heartbeat data)
  else
    (calls ++ [JsonParse data], Json (JSON_parse data)).
End Decoder.

(** ** Connection state *)

(** The wrapper instance created by [open]; [listening] tells whether the
    listeners wired by [open] are still attached. *)
Record Instance := mkInstance { wsUrl : string; listening : bool }.

Record Client := mkClient {
  deviceStatusMap : Cache.t BaseDevice;
  autoReconnectInterval : Z;
  pendingReconnect : bool;
  socketOpen : bool;
  instance : option Instance;
  pingInterval : option nat;
  url : option string;
  (* due times of the reconnect timeouts armed and not yet fired *)
  reconnectTimers : list Z;
  (* errors handed to onerror *)
  errors : list string
}.

(** [new WebSocketClient(log, config)] *)
Definition create : Client :=
  mkClient (Cache.create 500) (5 * 1000) false false None None None [] [].

Definition with_cache (m : Cache.t BaseDevice) (c : Client) : Client :=
  mkClient m (autoReconnectInterval c) (pendingReconnect c) (socketOpen c)
    (instance c) (pingInterval c) (url c) (reconnectTimers c) (errors c).

Definition open (u : string) (c : Client) : Client :=
  mkClient (deviceStatusMap c) (autoReconnectInterval c) (pendingReconnect c)
    (socketOpen c) (Some (mkInstance u true)) (pingInterval c) (Some u)
    (reconnectTimers c) (errors c).

Definition removeAllListeners (i : Instance) : Instance :=
  mkInstance (wsUrl i) false.

Definition reconnect (now : Z) (c : Client) : Client :=
  if negb (pendingReconnect c) then
    mkClient (deviceStatusMap c) (autoReconnectInterval c) true
      (socketOpen c) (removeAllListeners <$> instance c) (pingInterval c)
      (url c) (reconnectTimers c ++ [(now + autoReconnectInterval c)%Z])
      (errors c)
  else c.

(** The callback of the timeout armed by [reconnect], run when the head of
    [reconnectTimers] is due. *)
Definition reconnect_timeout (c : Client) : Res Client :=
  match url c with
  | None => Throw "Attempted reconnect without a URL"
  | Some u =>
      if String.eqb u "" then Throw "Attempted reconnect without a URL"
      else
        Ok (open u
              (mkClient (deviceStatusMap c) (autoReconnectInterval c) false
                 (socketOpen c) (instance c) (pingInterval c) (url c)
                 (tail (reconnectTimers c)) (errors c)))
  end.

(** The listener on [onClose]. *)
Definition onCloseListener (now : Z) (e : Z) (c : Client) : Client :=
  let c1 := if (e =? 1000)%Z then c else reconnect now c in
  mkClient (deviceStatusMap c1) (autoReconnectInterval c1)
    (pendingReconnect c1) false (instance c1) None (url c1)
    (reconnectTimers c1) (errors c1).

(** The listener on [onError]; [code] is [e.code]. *)
Definition onErrorListener (now : Z) (code : string) (c : Client) : Client :=
  if String.eqb code "ECONNREFUSED" then reconnect now c
  else
    mkClient (deviceStatusMap c) (autoReconnectInterval c)
      (pendingReconnect c) (socketOpen c) (instance c) (pingInterval c)
      (url c) (reconnectTimers c) (errors c ++ [code]).

Inductive Signal :=
| Closed (code : Z)
| Failed (code : string).

Definition abnormal (s : Signal) : bool :=
  match s with
  | Closed code => negb (code =? 1000)%Z
  | Failed code => String.eqb code "ECONNREFUSED"
  end.

Definition handle (now : Z) (s : Signal) (c : Client) : Client :=
  match s with
  | Closed code => onCloseListener now code c
  | Failed code => onErrorListener now code c
  end.

(** A signal raised by the transport reaches the listeners only while they
    are attached. *)
Definition deliver (now : Z) (s : Signal) (c : Client) : Client :=
  match instance c with
  | Some i => if listening i then handle now s c else c
  | None => c
  end.

Definition handle_all (sigs : list (Z * Signal)) (c : Client) : Client :=
  foldl (λ c ts, handle ts.1 ts.2 c) c sigs.

Definition deliver_all (sigs : list (Z * Signal)) (c : Client) : Client :=
  foldl (λ c ts, deliver ts.1 ts.2 c) c sigs.

(** ** Requests *)

Record Config := mkConfig { authenticationToken : string; apiKey : string }.

(** What [sendRequest(data, {requestId})] of the websocket wrapper puts on
    the wire, and the key under which the pending promise is filed. *)
Record Request := mkRequest { wire : Obj; correlationKey : string }.

Definition sendRequest (data : Obj) (requestId : string) : Request :=
  mkRequest (attachRequestId data requestId) requestId.

(** [ts] is the clock reading of [new Date().getTime()], [nonce] the
    base64 text of sixteen random bytes. *)
Definition populateCommonApiRequestFields (ts : Z) (nonce : string) (obj : Obj) : Obj :=
  let obj := obj_set "version" (JStr "6") obj in
  let obj := obj_set "ts" (JStr (NilZero.string_of_int (Z.to_int (ts / 1000)))) obj in
  let obj := obj_set "nonce" (JStr nonce) obj in
  let obj := obj_set "os" (JStr "iOS") obj in
  let obj := obj_set "model" (JStr "iPhone10,6") obj in
  obj_set "romVersion" (JStr "11.1.2") obj.

(** The login request of [onopen]; [t1] and [t2] are the clock readings of
    the two [getSequence()] calls. *)
Definition loginPayload (cfg : Config) (t1 ts : Z) (nonce : string) : Obj :=
  let payload := [] in
  let payload := obj_set "action" (JStr "userOnline") payload in
  let payload := obj_set "userAgent" (JStr "app") payload in
  let payload := obj_set "apkVesrion" (JStr "1.8") payload in
  let payload := obj_set "at" (JStr (authenticationToken cfg)) payload in
  let payload := obj_set "apikey" (JStr (apiKey cfg)) payload in
  let payload := obj_set "sequence" (JStr (getSequence t1)) payload in
  populateCommonApiRequestFields ts nonce payload.

Definition onopen_request (cfg : Config) (t1 ts t2 : Z) (nonce : string) : Request :=
  sendRequest (loginPayload cfg t1 ts nonce) (getSequence t2).

Definition onopen (c : Client) : Client :=
  mkClient (deviceStatusMap c) (autoReconnectInterval c) (pendingReconnect c)
    true (instance c) (pingInterval c) (url c) (reconnectTimers c) (errors c).

(** ** [getDeviceStatus] *)

Inductive Effect :=
| Sleep (ms : Q)
| Send (r : Request)
| CacheSet (key : string) (value : BaseDevice)
| Resolve (value : BaseDevice)
| Reject (err : string)
(* an exception thrown in a continuation or a timer callback that nothing
   catches: the promise handed to the caller stays pending *)
| Uncaught (err : string).

(** How the remote call of [sendRequest] ends. *)
Inductive Remote :=
| Fulfilled (result : BaseDevice)
| Failure (err : string).

(** The run of one call; what the environment supplies. *)
Record Env := mkEnv {
  random : Q;          (* Math.random() *)
  tsClock : Z;         (* clock when the payload is built *)
  nonceText : string;
  wakeClock : Z;       (* clock when the pause is over *)
  replyClock : Z;      (* clock when the remote call settles *)
  reply : Remote
}.

Definition statusPayload (cfg : Config) (deviceId : string) (ts : Z) (nonce : string) : Obj :=
  let payload :=
    [("action"%string, JStr "query"); ("apikey"%string, JStr (apiKey cfg));
     ("deviceid"%string, JStr deviceId); ("userAgent"%string, JStr "app");
     ("params"%string, JArr [])] in
  let payload := obj_set "at" (JStr (authenticationToken cfg)) payload in
  populateCommonApiRequestFields ts nonce payload.

(** [this.instance!.sendRequest(payload, {requestId})]: the wrapper is
    asked to send if [open] has created one; reading [sendRequest] of an
    undefined [instance] throws.  (The text of the TypeError is the
    engine's.) *)
Definition instance_sendRequest (c : Client) (payload : Obj) (requestId : string)
    : Res Request :=
  match instance c with
  | Some _ => Ok (sendRequest payload requestId)
  | None => Throw "TypeError: Cannot read property 'sendRequest' of undefined"
  end.

(** [getDeviceStatus(deviceId)].  On a miss the request is made in the
    continuation of the pause; an exception thrown there is caught by
    nothing, and neither [resolve] nor [reject] is called. *)
Definition getDeviceStatus (cfg : Config) (env : Env) (deviceId : string)
    (c : Client) : list Effect * Client :=
  match Cache.get deviceId (deviceStatusMap c) with
  | Some cachedDeviceStatus => ([Resolve cachedDeviceStatus], c)
  | None =>
      let payload := statusPayload cfg deviceId (tsClock env) (nonceText env) in
      let delay := (random env * 200 + 200)%Q in
      match instance_sendRequest c payload (getSequence (wakeClock env)) with
      | Throw err => ([Sleep delay; Uncaught err], c)
      | Ok request =>
          match reply env with
          | Fulfilled result =>
              ([Sleep delay; Send request; CacheSet deviceId result; Resolve result],
               with_cache
                 (Cache.set_default (replyClock env) deviceId result (deviceStatusMap c)) c)
          | Failure err =>
              ([Sleep delay; Send request; Reject err], c)
          end
      end
  end.

End WebSocketClient.

(* ===================================================================== *)
(** * Window coverings driven by two relays *)
(* ===================================================================== *)

Module Blinds.
Import Js.
Local Open Scope Q_scope.

(** ** Numbers *)

Definition Math_round (x : Q) : Q := inject_Z (Qfloor (x + (1 # 2))).

Definition Qlt_bool (x y : Q) : bool := negb (Qle_bool y x).

(** Position states as the plugin numbers them. *)
Definition MOVING_UP : Z := 0.
Definition MOVING_DOWN : Z := 1.
Definition STOPPED : Z := 2.
Definition ERROR : Z := 3.

(** ** Data *)

(** One entry of [params.switches]. *)
Record Switch := mkSwitch { switch : string; outlet : Z }.

(** [accessory.context] of a blind.  The durations are in seconds, the
    per-percent durations and the timestamps in milliseconds. *)
Record Context := mkContext {
  switchUp : Z;
  switchDown : Z;
  durationUp : Q;
  durationDown : Q;
  durationBMU : Q;
  durationBMD : Q;
  fullOverdrive : Q;
  percentDurationDown : Q;
  percentDurationUp : Q;
  lastPosition : Q;
  currentPositionState : Z;
  currentTargetPosition : Q;
  startTimestamp : Q;
  targetTimestamp : Q
}.

Definition set_lastPosition (v : Q) (c : Context) : Context :=
  mkContext (switchUp c) (switchDown c) (durationUp c) (durationDown c)
    (durationBMU c) (durationBMD c) (fullOverdrive c) (percentDurationDown c)
    (percentDurationUp c) v (currentPositionState c)
    (currentTargetPosition c) (startTimestamp c) (targetTimestamp c).

Definition set_currentPositionState (v : Z) (c : Context) : Context :=
  mkContext (switchUp c) (switchDown c) (durationUp c) (durationDown c)
    (durationBMU c) (durationBMD c) (fullOverdrive c) (percentDurationDown c)
    (percentDurationUp c) (lastPosition c) v
    (currentTargetPosition c) (startTimestamp c) (targetTimestamp c).

Definition set_currentTargetPosition (v : Q) (c : Context) : Context :=
  mkContext (switchUp c) (switchDown c) (durationUp c) (durationDown c)
    (durationBMU c) (durationBMD c) (fullOverdrive c) (percentDurationDown c)
    (percentDurationUp c) (lastPosition c) (currentPositionState c)
    v (startTimestamp c) (targetTimestamp c).

Definition set_startTimestamp (v : Q) (c : Context) : Context :=
  mkContext (switchUp c) (switchDown c) (durationUp c) (durationDown c)
    (durationBMU c) (durationBMD c) (fullOverdrive c) (percentDurationDown c)
    (percentDurationUp c) (lastPosition c) (currentPositionState c)
    (currentTargetPosition c) v (targetTimestamp c).

Definition set_targetTimestamp (v : Q) (c : Context) : Context :=
  mkContext (switchUp c) (switchDown c) (durationUp c) (durationDown c)
    (durationBMU c) (durationBMD c) (fullOverdrive c) (percentDurationDown c)
    (percentDurationUp c) (lastPosition c) (currentPositionState c)
    (currentTargetPosition c) (startTimestamp c) v.

(** The group of the configuration a blind is built from; absent optional
    entries are [None]. *)
Record Group := mkGroup {
  relay_up : Z;
  relay_down : Z;
  time_up : Q;
  time_down : Q;
  time_botton_margin_up : option Q;
  time_botton_margin_down : option Q;
  full_overdrive : option Q
}.

(** [x || 0] *)
Definition or_zero (x : option Q) : Q := default 0 x.

(** The context written by [addAccessory] for a new blind. *)
Definition addAccessory_context (g : Group) : Context :=
  mkContext (relay_up g - 1)%Z (relay_down g - 1)%Z (time_up g) (time_down g)
    (or_zero (time_botton_margin_up g)) (or_zero (time_botton_margin_down g))
    (or_zero (full_overdrive g))
    (time_down g / 100 * 1000) (time_up g / 100 * 1000)
    100 2 100 0 0.

(** The context restored by [configureAccessory]; [saved] is the stored
    [lastPosition], if any. *)
Definition configureAccessory_context (saved : option Q) (g : Group) : Context :=
  let lastPosition :=
    match saved with
    | None => 0
    | Some p => if Qlt_bool p 0 then 0 else p
    end in
  mkContext (relay_up g - 1)%Z (relay_down g - 1)%Z (time_up g) (time_down g)
    (or_zero (time_botton_margin_up g)) (or_zero (time_botton_margin_down g))
    (or_zero (full_overdrive g))
    (time_down g / 100 * 1000) (time_up g / 100 * 1000)
    lastPosition 2 lastPosition 0 0.

Inductive Characteristic := CurrentPosition | TargetPosition | PositionState.

(** What the controller does to the outside, in order. *)
Inductive Event :=
| UpdateDeviceStatus (switches : list Switch)
| UpdateValue (ch : Characteristic) (v : Q)
| SetCharacteristic (ch : Characteristic) (v : Q)
| Callback
| CallbackValue (v : Z)
| CallbackError (err : string).

(** Pending timer callbacks: the delayed start of a move, the completion
    poll and the delayed part of the stop routine. *)
Inductive Task := StartMove | Poll | FinalStop.

Record Timer := mkTimer { timerId : nat; due : Z; task : Task }.

Record World := mkWorld {
  context : Context;
  (* devicesFromApi.get(deviceId).params.switches: one array, shared with
     every payload built from it *)
  registry : list Switch;
  (* armed timers in the order in which they will fire *)
  timers : list Timer;
  nextTimer : nat;
  trace : list Event
}.

Definition with_context (c : Context) (w : World) : World :=
  mkWorld c (registry w) (timers w) (nextTimer w) (trace w).

Definition with_registry (r : list Switch) (w : World) : World :=
  mkWorld (context w) r (timers w) (nextTimer w) (trace w).

Definition with_timers (l : list Timer) (w : World) : World :=
  mkWorld (context w) (registry w) l (nextTimer w) (trace w).

Definition emit (e : Event) (w : World) : World :=
  mkWorld (context w) (registry w) (timers w) (nextTimer w) (trace w ++ [e]).

Fixpoint enqueue (x : Timer) (l : list Timer) : list Timer :=
  match l with
  | [] => [x]
  | y :: l' => if (due x <? due y)%Z then x :: l else y :: enqueue x l'
  end.

(** [setTimeout] and [setInterval] arm a timer with a fresh handle. *)
Definition arm (t : Task) (at_ : Z) (w : World) : World :=
  mkWorld (context w) (registry w)
    (enqueue (mkTimer (nextTimer w) at_ t) (timers w))
    (S (nextTimer w)) (trace w).

(** The relay commands sent so far. *)
Definition commands (w : World) : list (list Switch) :=
  omap (λ e, match e with UpdateDeviceStatus s => Some s | _ => None end) (trace w).

(** ** Reading and writing the relay array *)

Definition at_index {A} (l : list A) (i : Z) : option A :=
  if (i <? 0)%Z then None else l !! Z.to_nat i.

(** Both relay indices of the context point into the relay array. *)
Definition relays_ok (w : World) : Prop :=
  is_Some (at_index (registry w) (switchUp (context w))) ∧
  is_Some (at_index (registry w) (switchDown (context w))).

Definition MAPPING (sum : Z) : Z :=
  if (sum =? 0)%Z then 2%Z
  else if (sum =? 1)%Z then 1%Z
  else if (sum =? 2)%Z then 0%Z
  else 3%Z.

Definition getBlindState (switches : list Switch) (c : Context) : Res Z :=
  match at_index switches (switchUp c), at_index switches (switchDown c) with
  | Some up, Some down =>
      let switch0 := if String.eqb (switch up) "on" then 1%Z else 0%Z in
      let switch1 := if String.eqb (switch down) "on" then 1%Z else 0%Z in
      let sum := (switch0 * 2 + switch1)%Z in
      Ok (MAPPING sum)
  | _, _ => Throw "TypeError: cannot read property 'switch' of undefined"
  end.

Definition write_switch (i : Z) (v : string) (l : list Switch) : Res (list Switch) :=
  match at_index l i with
  | Some s => Ok (<[Z.to_nat i := mkSwitch v (outlet s)]> l)
  | None => Throw "TypeError: cannot set property 'switch' of undefined"
  end.

(** The payload is the shared relay array itself, updated in place. *)
Definition prepareBlindSwitchesPayload (w : World) : Res World :=
  let state := currentPositionState (context w) in
  let '(switch0, switch1) :=
    if (state =? 2)%Z then ("off", "off")%string
    else if (state =? 1)%Z then ("off", "on")%string
    else if (state =? 0)%Z then ("on", "off")%string
    else ("off", "off")%string in
  r <-- write_switch (switchUp (context w)) switch0 (registry w) ;;
  r <-- write_switch (switchDown (context w)) switch1 r ;;
  Ok (with_registry r w).

(** ** Position estimate *)

Definition actualPosition (now : Z) (c : Context) : Q :=
  let timestamp := inject_Z now in
  if (currentPositionState c =? 1)%Z then
    Math_round (lastPosition c - (timestamp - startTimestamp c) / percentDurationDown c)
  else if (currentPositionState c =? 0)%Z then
    Math_round (lastPosition c + (timestamp - startTimestamp c) / percentDurationUp c)
  else lastPosition c.

(** ** The stop routine *)

Definition setFinalBlindsState (now : Z) (w : World) : Res World :=
  let w := with_context (set_currentPositionState 2 (context w)) w in
  w <-- prepareBlindSwitchesPayload w ;;
  Ok (arm FinalStop (now + 1) w).

(** Body of the timeout armed by [setFinalBlindsState]. *)
Definition finalStop (w : World) : World :=
  let w := emit (UpdateDeviceStatus (registry w)) w in
  let w := with_context (set_currentPositionState 2 (context w)) w in
  let currentTargetPosition := currentTargetPosition (context w) in
  let w := with_context (set_lastPosition currentTargetPosition (context w)) w in
  let w := emit (UpdateValue CurrentPosition currentTargetPosition) w in
  let w := emit (UpdateValue TargetPosition currentTargetPosition) w in
  emit (SetCharacteristic PositionState 2) w.

(** ** [setTargetPosition] *)

(** Drive time in seconds of a move that starts from rest. *)
Definition duration (pos : Q) (c : Context) : Q :=
  let moveUp := Qlt_bool (lastPosition c) pos in
  let withoutmarginetimeUP := durationUp c - durationBMU c in
  let withoutmarginetimeDOWN := durationDown c - durationBMD c in
  let duration :=
    if moveUp then
      if Qeq_bool (lastPosition c) 0 then
        (pos - lastPosition c) / 100 * withoutmarginetimeUP + durationBMU c
      else
        (pos - lastPosition c) / 100 * withoutmarginetimeUP
    else
      if Qeq_bool pos 0 then
        (lastPosition c - pos) / 100 * withoutmarginetimeDOWN + durationBMD c
      else
        (lastPosition c - pos) / 100 * withoutmarginetimeDOWN in
  let duration :=
    if Qeq_bool pos 0 || Qeq_bool pos 100 then duration + fullOverdrive c
    else duration in
  Math_round (duration * 100) / 100.

(** [now] stands for the readings of the clock made during the call: the
    one at its start and the one of [actualPosition]. *)
Definition setTargetPosition (now : Z) (pos : Q) (w : World) : Res World :=
  let c := context w in
  let timestamp := inject_Z now in
  if negb (currentPositionState c =? 2)%Z then
    let diffPosition := Qabs (pos - currentTargetPosition c) in
    if Qeq_bool diffPosition 0 then
      Ok (emit Callback w)
    else
      let diffTime :=
        if (currentPositionState c =? 1)%Z then
          Math_round (percentDurationDown c * (currentTargetPosition c - pos))
        else
          Math_round (percentDurationUp c * (pos - currentTargetPosition c)) in
      let diff := (targetTimestamp c - timestamp) + diffTime in
      let actualPosition := actualPosition now c in
      if Qlt_bool 0 diff then
        let c := set_targetTimestamp (targetTimestamp c + diffTime) c in
        let c := set_currentTargetPosition pos c in
        Ok (emit Callback (with_context c w))
      else if Qlt_bool diff 0 then
        let c := set_startTimestamp timestamp c in
        let c := set_targetTimestamp (timestamp + Qabs diff) c in
        let c := set_lastPosition actualPosition c in
        let c := set_currentTargetPosition pos c in
        let c := set_currentPositionState
                   (if (currentPositionState c =? 0)%Z then 1 else 0)%Z c in
        w <-- prepareBlindSwitchesPayload (with_context c w) ;;
        let w := emit (UpdateDeviceStatus (registry w)) w in
        let w := emit (UpdateValue CurrentPosition (lastPosition c)) w in
        let w := emit (UpdateValue TargetPosition (currentTargetPosition c)) w in
        let w := emit (UpdateValue PositionState
                         (inject_Z (currentPositionState c))) w in
        Ok (emit Callback w)
      else
        Ok (emit Callback w)
  else if Qeq_bool (lastPosition c) pos then
    Ok (emit Callback w)
  else
    let moveUp := Qlt_bool (lastPosition c) pos in
    let duration := duration pos c in
    let c := set_currentTargetPosition pos c in
    let c := set_startTimestamp timestamp c in
    let c := set_targetTimestamp (timestamp + duration * 1000) c in
    let state := (if moveUp then 0 else 1)%Z in
    let c := set_currentPositionState state c in
    let w := emit (SetCharacteristic PositionState (inject_Z state))
                  (with_context c w) in
    w <-- prepareBlindSwitchesPayload w ;;
    Ok (arm StartMove (now + 1) w).

(** ** What [this] is in a callback *)

(** A method called on the platform, and an arrow function written in one,
    have the platform as [this].  A plain [function] handed to [setTimeout]
    or [setInterval] is called by the timer with its own [Timeout] object as
    [this], which has none of the properties of the platform. *)
Inductive This := ThePlatform | TheTimeout.

(** [this.apiClient.updateDeviceStatus(accessory, params)]; on a [Timeout]
    [this.apiClient] is undefined.  (The text of a TypeError is the
    engine's.) *)
Definition this_apiClient_updateDeviceStatus (this : This) (w : World) : Res World :=
  match this with
  | ThePlatform => Ok (emit (UpdateDeviceStatus (registry w)) w)
  | TheTimeout =>
      Throw "TypeError: Cannot read property 'updateDeviceStatus' of undefined"
  end.

(** [this.setFinalBlindsState(accessory)] *)
Definition this_setFinalBlindsState (this : This) (now : Z) (w : World) : Res World :=
  match this with
  | ThePlatform => setFinalBlindsState now w
  | TheTimeout => Throw "TypeError: this.setFinalBlindsState is not a function"
  end.

(** Body of the timeout armed by [setTargetPosition], a plain [function]:
    the relay command goes out, the completion poll starts, and the host is
    called back. *)
Definition startMove (this : This) (now : Z) (w : World) : Res World :=
  w <-- this_apiClient_updateDeviceStatus this w ;;
  let w := arm Poll (now + 100) w in
  Ok (emit Callback w).

(** One tick of the completion poll, a plain [function] too; [x] is the
    interval's own timer, which stays armed unless [clearInterval] is
    reached. *)
Definition poll (this : This) (x : Timer) (now : Z) (w : World) : Res World :=
  if Qle_bool (targetTimestamp (context w)) (inject_Z now) then
    this_setFinalBlindsState this now w
  else
    Ok (with_timers (enqueue (mkTimer (timerId x) (now + 100) Poll) (timers w)) w).

(** ** The host sets a characteristic *)

(** [service.setCharacteristic(TargetPosition, v)] runs the ['set'] handler
    of the characteristic, taken as the call
    [setTargetPosition(accessory, value, callback)] on the platform that the
    handler is written to make; the other characteristics have none. *)
Definition setCharacteristic_TargetPosition (now : Z) (v : Q) (w : World) : Res World :=
  setTargetPosition now v (emit (SetCharacteristic TargetPosition v) w).

(** ** A relay state pushed by the service *)

(** The accessory of the device is taken to exist (otherwise the function
    logs and returns); log lines are left out. *)

Definition updateBlindStateCharacteristic (now : Z) (switches : list Switch)
    (w : World) : Res World :=
  let c := context w in
  state <-- getBlindState switches c ;;
  let external_stop :=
    let actualPosition := actualPosition now c in
    let c := set_currentTargetPosition actualPosition c in
    let c := set_targetTimestamp (inject_Z now + 10) c in
    setCharacteristic_TargetPosition now actualPosition (with_context c w) in
  if (state =? 3)%Z then external_stop
  else if (state =? 2)%Z then
    if (currentPositionState c =? 2)%Z then Ok w else external_stop
  else if (state =? 1)%Z then
    if (currentPositionState c =? 1)%Z then Ok w
    else if Qeq_bool (currentTargetPosition c) 0 then setFinalBlindsState now w
    else setCharacteristic_TargetPosition now 0 w
  else if (state =? 0)%Z then
    if (currentPositionState c =? 0)%Z then Ok w
    else if Qeq_bool (currentTargetPosition c) 100 then setFinalBlindsState now w
    else setCharacteristic_TargetPosition now 100 w
  else Ok w.

(** ** The host reads the position state *)

(** The loop of [getPositionState] over the channels of the device:
    [switches[i].switch] is read for [i] from 0 until [i] equals
    [switchesAmount], which throws once [i] is past the end of the array.
    [rest] is the array from index [i] on.  (The loop marks the accessory
    reachable, which is not part of the world.) *)
Fixpoint scanChannels (i switchesAmount : Z) (rest : list Switch) : Res unit :=
  if (i =? switchesAmount)%Z then Ok tt
  else
    match rest with
    | [] => Throw "TypeError: cannot read property 'switch' of undefined"
    | _ :: rest => scanChannels (i + 1) switchesAmount rest
    end.

(** What a call of [prepareBlindSwitchesPayload] that throws leaves behind:
    the first of the two relays has been written if it is the second that
    is missing. *)
Definition prepare_leftover (w : World) : World :=
  let state := currentPositionState (context w) in
  let switch0 :=
    if (state =? 2)%Z then "off"%string
    else if (state =? 1)%Z then "off"%string
    else if (state =? 0)%Z then "on"%string
    else "off"%string in
  match write_switch (switchUp (context w)) switch0 (registry w) with
  | Ok r => with_registry r w
  | Throw _ => w
  end.

(** The continuation of [getPositionState] once [getDeviceStatus] has
    resolved with a device of [switchesAmount] channels
    ([getDeviceChannelCount(device)]) and the relay array [switches].  An
    exception thrown in it reaches the [catch] handler, which answers the
    host with the error. *)
Definition getPositionState (now : Z) (switchesAmount : Z) (switches : list Switch)
    (w : World) : World :=
  let failed err w :=
    emit (CallbackError ("Failed to get device state: " ++ err)) w in
  match scanChannels 0 switchesAmount switches with
  | Throw err => failed err w
  | Ok _ =>
      match getBlindState switches (context w) with
      | Throw err => failed err w
      | Ok blindState =>
          if (2 <? blindState)%Z then
            let w := with_context (set_currentPositionState 2 (context w)) w in
            match setFinalBlindsState now w with
            | Ok w => emit (CallbackValue 2) w
            | Throw err => failed err (prepare_leftover w)
            end
          else
            emit (CallbackValue blindState) w
      end
  end.

(** ** The event loop *)

(** A timer calls its callback with the [Timeout] as [this]; the arrow
    function of the stop routine keeps the platform.  An exception of a
    callback is caught by nothing: the run ends with it. *)
Definition fire (x : Timer) (w : World) : Res World :=
  match task x with
  | StartMove => startMove TheTimeout (due x) w
  | Poll => poll TheTimeout x (due x) w
  | FinalStop => Ok (finalStop w)
  end.

(** Fire, in order, the timers due up to [upto]; [fuel] bounds their number. *)
Fixpoint run_until (fuel : nat) (upto : Z) (w : World) : Res World :=
  match fuel with
  | O => Ok w
  | S fuel =>
      match timers w with
      | [] => Ok w
      | x :: rest =>
          if (due x <=? upto)%Z then
            w <-- fire x (with_timers rest w) ;;
            run_until fuel upto w
          else Ok w
      end
  end.

End Blinds.

(* ===================================================================== *)
(** * JavaScript numbers as they are: IEEE 754 doubles *)
(* ===================================================================== *)

Module Double.
Local Open Scope float_scope.

(** The double nearest to an integer (exact up to 2^53): a clock reading
    or an integer literal. *)
Definition of_Z (z : Z) : float :=
  SF2Prim (binary_normalize prec emax z 0 false).

(** [Math.round(x)]: the integer nearest to [x], the larger one when two
    are equally near; [-0] for [x] in [-0.5, 0); [x] itself when it is an
    integer already, a zero, an infinity or NaN.  A finite [x] is
    [±m * 2^e]; the rounding is done on that exact value. *)
Definition Math_round (x : float) : float :=
  match Prim2SF x with
  | S754_finite s m e =>
      if (0 <=? e)%Z then x
      else
        let v := if s then Z.neg m else Z.pos m in
        let d := (2 ^ (- e))%Z in
        let n := ((2 * v + d) / (2 * d))%Z in
        if (n =? 0)%Z then (if s then - 0 else 0) else of_Z n
  | _ => x
  end.

(** [Math.round(x * 100) / 100] *)
Definition round2 (x : float) : float := Math_round (x * 100) / 100.

(** [x || 0] for an optional number: 0 for undefined, NaN and the zeros. *)
Definition or_zero (x : option float) : float :=
  match x with
  | Some v => if is_nan v || (v =? 0) then 0 else v
  | None => 0
  end.

(** A sum with a part that may be absent. *)
Definition add_opt (x : float) (y : option float) : float :=
  match y with
  | Some v => x + v
  | None => x
  end.

End Double.

(* ===================================================================== *)
(** * The blind over doubles *)
(* ===================================================================== *)

(** [setTargetPosition] and what it calls, as in [Blinds] but with the
    numbers of the accessory context as the doubles they are, for the
    statements about computed values.  The relay array, the timers and the
    position states are those of [Blinds]. *)
Module Blinds64.
Import Js Double.
Local Open Scope float_scope.

Abbreviation Switch := Blinds.Switch.
Abbreviation Characteristic := Blinds.Characteristic.
Abbreviation Task := Blinds.Task.
Abbreviation Timer := Blinds.Timer.
Abbreviation MOVING_UP := Blinds.MOVING_UP.
Abbreviation MOVING_DOWN := Blinds.MOVING_DOWN.
Abbreviation STOPPED := Blinds.STOPPED.
Abbreviation ERROR := Blinds.ERROR.
Abbreviation at_index := Blinds.at_index.
Abbreviation write_switch := Blinds.write_switch.

Record Context := mkContext {
  switchUp : Z;
  switchDown : Z;
  durationUp : float;
  durationDown : float;
  durationBMU : float;
  durationBMD : float;
  fullOverdrive : float;
  percentDurationDown : float;
  percentDurationUp : float;
  lastPosition : float;
  currentPositionState : Z;
  currentTargetPosition : float;
  startTimestamp : float;
  targetTimestamp : float
}.

Definition set_lastPosition (v : float) (c : Context) : Context :=
  mkContext (switchUp c) (switchDown c) (durationUp c) (durationDown c)
    (durationBMU c) (durationBMD c) (fullOverdrive c) (percentDurationDown c)
    (percentDurationUp c) v (currentPositionState c)
    (currentTargetPosition c) (startTimestamp c) (targetTimestamp c).

Definition set_currentPositionState (v : Z) (c : Context) : Context :=
  mkContext (switchUp c) (switchDown c) (durationUp c) (durationDown c)
    (durationBMU c) (durationBMD c) (fullOverdrive c) (percentDurationDown c)
    (percentDurationUp c) (lastPosition c) v
    (currentTargetPosition c) (startTimestamp c) (targetTimestamp c).

Definition set_currentTargetPosition (v : float) (c : Context) : Context :=
  mkContext (switchUp c) (switchDown c) (durationUp c) (durationDown c)
    (durationBMU c) (durationBMD c) (fullOverdrive c) (percentDurationDown c)
    (percentDurationUp c) (lastPosition c) (currentPositionState c)
    v (startTimestamp c) (targetTimestamp c).

Definition set_startTimestamp (v : float) (c : Context) : Context :=
  mkContext (switchUp c) (switchDown c) (durationUp c) (durationDown c)
    (durationBMU c) (durationBMD c) (fullOverdrive c) (percentDurationDown c)
    (percentDurationUp c) (lastPosition c) (currentPositionState c)
    (currentTargetPosition c) v (targetTimestamp c).

Definition set_targetTimestamp (v : float) (c : Context) : Context :=
  mkContext (switchUp c) (switchDown c) (durationUp c) (durationDown c)
    (durationBMU c) (durationBMD c) (fullOverdrive c) (percentDurationDown c)
    (percentDurationUp c) (lastPosition c) (currentPositionState c)
    (currentTargetPosition c) (startTimestamp c) v.

Record Group := mkGroup {
  relay_up : Z;
  relay_down : Z;
  time_up : float;
  time_down : float;
  time_botton_margin_up : option float;
  time_botton_margin_down : option float;
  full_overdrive : option float
}.

(** The context written by [addAccessory] for a new blind. *)
Definition addAccessory_context (g : Group) : Context :=
  mkContext (relay_up g - 1)%Z (relay_down g - 1)%Z (time_up g) (time_down g)
    (or_zero (time_botton_margin_up g)) (or_zero (time_botton_margin_down g))
    (or_zero (full_overdrive g))
    (time_down g / 100 * 1000) (time_up g / 100 * 1000)
    100 2 100 0 0.

(** The context restored by [configureAccessory]; [saved] is the stored
    [lastPosition], if any. *)
Definition configureAccessory_context (saved : option float) (g : Group) : Context :=
  let lastPosition :=
    match saved with
    | None => 0
    | Some p => if p <? 0 then 0 else p
    end in
  mkContext (relay_up g - 1)%Z (relay_down g - 1)%Z (time_up g) (time_down g)
    (or_zero (time_botton_margin_up g)) (or_zero (time_botton_margin_down g))
    (or_zero (full_overdrive g))
    (time_down g / 100 * 1000) (time_up g / 100 * 1000)
    lastPosition 2 lastPosition 0 0.

Inductive Event :=
| UpdateDeviceStatus (switches : list Switch)
| UpdateValue (ch : Characteristic) (v : float)
| SetCharacteristic (ch : Characteristic) (v : float)
| Callback.

Record World := mkWorld {
  context : Context;
  registry : list Switch;
  timers : list Timer;
  nextTimer : nat;
  trace : list Event
}.

Definition with_context (c : Context) (w : World) : World :=
  mkWorld c (registry w) (timers w) (nextTimer w) (trace w).

Definition with_registry (r : list Switch) (w : World) : World :=
  mkWorld (context w) r (timers w) (nextTimer w) (trace w).

Definition with_timers (l : list Timer) (w : World) : World :=
  mkWorld (context w) (registry w) l (nextTimer w) (trace w).

Definition emit (e : Event) (w : World) : World :=
  mkWorld (context w) (registry w) (timers w) (nextTimer w) (trace w ++ [e]).

Definition arm (t : Task) (at_ : Z) (w : World) : World :=
  mkWorld (context w) (registry w)
    (Blinds.enqueue (Blinds.mkTimer (nextTimer w) at_ t) (timers w))
    (S (nextTimer w)) (trace w).

Definition commands (w : World) : list (list Switch) :=
  omap (λ e, match e with UpdateDeviceStatus s => Some s | _ => None end) (trace w).

Definition relays_ok (w : World) : Prop :=
  is_Some (at_index (registry w) (switchUp (context w))) ∧
  is_Some (at_index (registry w) (switchDown (context w))).

Definition getBlindState (switches : list Switch) (c : Context) : Res Z :=
  match at_index switches (switchUp c), at_index switches (switchDown c) with
  | Some up, Some down =>
      let switch0 := if String.eqb (Blinds.switch up) "on" then 1%Z else 0%Z in
      let switch1 := if String.eqb (Blinds.switch down) "on" then 1%Z else 0%Z in
      let sum := (switch0 * 2 + switch1)%Z in
      Ok (Blinds.MAPPING sum)
  | _, _ => Throw "TypeError: cannot read property 'switch' of undefined"
  end.

Definition prepareBlindSwitchesPayload (w : World) : Res World :=
  let state := currentPositionState (context w) in
  let '(switch0, switch1) :=
    if (state =? 2)%Z then ("off", "off")%string
    else if (state =? 1)%Z then ("off", "on")%string
    else if (state =? 0)%Z then ("on", "off")%string
    else ("off", "off")%string in
  r <-- write_switch (switchUp (context w)) switch0 (registry w) ;;
  r <-- write_switch (switchDown (context w)) switch1 r ;;
  Ok (with_registry r w).

Definition actualPosition (now : Z) (c : Context) : float :=
  let timestamp := of_Z now in
  if (currentPositionState c =? 1)%Z then
    Math_round (lastPosition c - (timestamp - startTimestamp c) / percentDurationDown c)
  else if (currentPositionState c =? 0)%Z then
    Math_round (lastPosition c + (timestamp - startTimestamp c) / percentDurationUp c)
  else lastPosition c.

(** Drive time in seconds of a move that starts from rest. *)
Definition duration (pos : float) (c : Context) : float :=
  let moveUp := lastPosition c <? pos in
  let withoutmarginetimeUP := durationUp c - durationBMU c in
  let withoutmarginetimeDOWN := durationDown c - durationBMD c in
  let duration :=
    if moveUp then
      if lastPosition c =? 0 then
        (pos - lastPosition c) / 100 * withoutmarginetimeUP + durationBMU c
      else
        (pos - lastPosition c) / 100 * withoutmarginetimeUP
    else
      if pos =? 0 then
        (lastPosition c - pos) / 100 * withoutmarginetimeDOWN + durationBMD c
      else
        (lastPosition c - pos) / 100 * withoutmarginetimeDOWN in
  let duration :=
    if (pos =? 0) || (pos =? 100) then duration + fullOverdrive c
    else duration in
  Math_round (duration * 100) / 100.

(** [now] is the clock read at the start of the call ([timestamp]), [now']
    the clock read by [actualPosition] when the blind is moving. *)
Definition setTargetPosition (now now' : Z) (pos : float) (w : World) : Res World :=
  let c := context w in
  let timestamp := of_Z now in
  if negb (currentPositionState c =? 2)%Z then
    let diffPosition := abs (pos - currentTargetPosition c) in
    if diffPosition =? 0 then
      Ok (emit Callback w)
    else
      let diffTime :=
        if (currentPositionState c =? 1)%Z then
          Math_round (percentDurationDown c * (currentTargetPosition c - pos))
        else
          Math_round (percentDurationUp c * (pos - currentTargetPosition c)) in
      let diff := (targetTimestamp c - timestamp) + diffTime in
      let actualPosition := actualPosition now' c in
      if 0 <? diff then
        let c := set_targetTimestamp (targetTimestamp c + diffTime) c in
        let c := set_currentTargetPosition pos c in
        Ok (emit Callback (with_context c w))
      else if diff <? 0 then
        let c := set_startTimestamp timestamp c in
        let c := set_targetTimestamp (timestamp + abs diff) c in
        let c := set_lastPosition actualPosition c in
        let c := set_currentTargetPosition pos c in
        let c := set_currentPositionState
                   (if (currentPositionState c =? 0)%Z then 1 else 0)%Z c in
        w <-- prepareBlindSwitchesPayload (with_context c w) ;;
        let w := emit (UpdateDeviceStatus (registry w)) w in
        let w := emit (UpdateValue Blinds.CurrentPosition (lastPosition c)) w in
        let w := emit (UpdateValue Blinds.TargetPosition (currentTargetPosition c)) w in
        let w := emit (UpdateValue Blinds.PositionState
                         (of_Z (currentPositionState c))) w in
        Ok (emit Callback w)
      else
        Ok (emit Callback w)
  else if lastPosition c =? pos then
    Ok (emit Callback w)
  else
    let moveUp := lastPosition c <? pos in
    let duration := duration pos c in
    let c := set_currentTargetPosition pos c in
    let c := set_startTimestamp timestamp c in
    let c := set_targetTimestamp (timestamp + duration * 1000) c in
    let state := (if moveUp then 0 else 1)%Z in
    let c := set_currentPositionState state c in
    let w := emit (SetCharacteristic Blinds.PositionState (of_Z state))
                  (with_context c w) in
    w <-- prepareBlindSwitchesPayload w ;;
    Ok (arm Blinds.StartMove (now + 1) w).

End Blinds64.

(* ===================================================================== *)
(** * What the description of the drive time says, and sample devices *)
(* ===================================================================== *)

Module Described.
Import Blinds.
Local Open Scope Q_scope.

(** The drive time as the description words it: a per-percent constant
    times the distance, the bottom margin of the direction when the move
    leaves position 0, the overdrive when the target is 0 or 100.  The
    per-percent constants are left open. *)
Definition duration (perPercentUp perPercentDown : Q) (pos : Q) (c : Context) : Q :=
  let moveUp := Qlt_bool (lastPosition c) pos in
  let distance := Qabs (pos - lastPosition c) in
  let travel := (if moveUp then perPercentUp else perPercentDown) * distance in
  let margin :=
    if Qeq_bool (lastPosition c) 0
    then (if moveUp then durationBMU c else durationBMD c)
    else 0 in
  let overdrive :=
    if Qeq_bool pos 0 || Qeq_bool pos 100 then fullOverdrive c else 0 in
  travel + margin + overdrive.

End Described.

Module Samples.
Import Js Blinds.
Local Open Scope Q_scope.

Definition relays (up down : string) : list Switch :=
  [mkSwitch up 0; mkSwitch down 1; mkSwitch "off" 2; mkSwitch "off" 3].

(** Full travel in ten seconds either way, no margins, no overdrive. *)
Definition plain : Group := mkGroup 1 2 10 10 None None None.

(** The same travel time written in milliseconds. *)
Definition plain_ms : Group := mkGroup 1 2 10000 10000 None None None.

(** Ten seconds either way, of which two are bottom margin. *)
Definition margins : Group := mkGroup 1 2 10 10 (Some 2) (Some 2) None.

(** A blind restored at position 0, at rest, no timer armed. *)
Definition closed (g : Group) : World :=
  mkWorld (configureAccessory_context None g) (relays "off" "off") [] 0 [].

(** A blind just added: position 100, at rest, no timer armed. *)
Definition fresh (g : Group) : World :=
  mkWorld (addAccessory_context g) (relays "off" "off") [] 0 [].

(** The plain blind, told at instant 1000 to go from 0 to 50, once its
    start timer is gone: Moving up until 6000. *)
Definition moving : World :=
  match setTargetPosition 1000 50 (closed plain) with
  | Ok w => with_timers [] w
  | Throw _ => closed plain
  end.

Definition config : WebSocketClient.Config :=
  WebSocketClient.mkConfig "token" "key".

Definition snapshot : WebSocketClient.BaseDevice :=
  [("deviceid"%string, JStr "1000abcdef"); ("params"%string, JObj [])].

Definition env (r : WebSocketClient.Remote) : WebSocketClient.Env :=
  WebSocketClient.mkEnv (1 # 2) 1000 "bm9uY2U=" 1300 1350 r.

End Samples.

Module Samples64.
Import Js Blinds64.
Local Open Scope float_scope.

(** Ten seconds either way, of which two are bottom margin. *)
Definition margins : Group := mkGroup 1 2 10 10 (Some 2) (Some 2) None.

(** Five seconds and a quarter either way, no margins, no overdrive. *)
Definition quick : Group := mkGroup 1 2 5.25 5.25 None None None.

(** 1.8 seconds either way; the per-percent duration [1.8 / 100 * 1000] is
    the double 18.000000000000004. *)
#[warnings="-inexact-float"]
Definition brisk : Group := mkGroup 1 2 1.8 1.8 None None None.

(** A blind restored at the stored position, at rest, no timer armed. *)
Definition restored (saved : option float) (g : Group) : World :=
  mkWorld (configureAccessory_context saved g) (Samples.relays "off" "off") [] 0 [].

(** A blind just added: position 100, at rest, no timer armed. *)
Definition fresh (g : Group) : World :=
  mkWorld (addAccessory_context g) (Samples.relays "off" "off") [] 0 [].

(** The brisk blind, told at instant 1000 to go from 0 to 50, once its
    start timer is gone: Moving up until 1900. *)
Definition moving : World :=
  match setTargetPosition 1000 1000 50 (restored None brisk) with
  | Ok w => with_timers [] w
  | Throw _ => restored None brisk
  end.

End Samples64.

(* ===================================================================== *)
(** * Histories of the cache *)
(* ===================================================================== *)

Module CacheOps.
Import Cache.
Section WithValue.
Context {T : Type}.

(** What can happen to a cache: the three mutating methods, and the
    passage of time. *)
Inductive Op :=
| OSet (now : Z) (key : string) (value : T) (cacheDuration : Z)
| OSetDefault (now : Z) (key : string) (value : T)
| ODelete (key : string)
| OAdvance (upto : Z).

Definition exec (o : Op) (c : Cache.t T) : Cache.t T :=
  match o with
  | OSet now key value cacheDuration => set now key value cacheDuration c
  | OSetDefault now key value => set_default now key value c
  | ODelete key => delete key c
  | OAdvance upto => advance upto c
  end.

Definition exec_all (ops : list Op) (c : Cache.t T) : Cache.t T :=
  foldl (λ c o, exec o c) c ops.

(** Timer handles are fresh: no two pending timers and no two keys share
    one, and each pending timer is the one recorded for its key. *)
Definition inv (c : Cache.t T) : Prop :=
  wf c ∧
  NoDup (timerId <$> pending c) ∧
  (∀ x, x ∈ pending c → (timerId x < nextTimer c)%nat) ∧
  (∀ k id, timerMap c !! k = Some id → (id < nextTimer c)%nat) ∧
  (∀ k k' id, timerMap c !! k = Some id → timerMap c !! k' = Some id → k = k').

End WithValue.
End CacheOps.

(* ===================================================================== *)
(** * More of the websocket client *)
(* ===================================================================== *)

Module Session.
Import Js WebSocketClient.

(** Time passes for the client: the due timers of its cache fire. *)
Definition tick (upto : Z) (c : Client) : Client :=
  with_cache (Cache.advance upto (deviceStatusMap c)) c.

Definition updatePayload (cfg : Config) (deviceId : string) (params : JsValue)
    (ts : Z) (nonce : string) : Obj :=
  let payload :=
    [("action"%string, JStr "update"); ("apikey"%string, JStr (apiKey cfg));
     ("deviceid"%string, JStr deviceId); ("userAgent"%string, JStr "app");
     ("params"%string, params)] in
  let payload := obj_set "at" (JStr (authenticationToken cfg)) payload in
  populateCommonApiRequestFields ts nonce payload.

(** [updateDeviceStatus(deviceId, params)].  [c] is the client when the
    pause is over, at [wakeClock env]; if the socket is closed then, the
    request is made by a timeout 5000 ms later.  In either place an
    exception of [this.instance!.sendRequest] is caught by nothing. *)
Definition updateDeviceStatus (cfg : Config) (env : Env) (deviceId : string)
    (params : JsValue) (c : Client) : list Effect * Client :=
  let payload := updatePayload cfg deviceId params (tsClock env) (nonceText env) in
  let delay := (random env * 200 + 200)%Q in
  let settle :=
    match reply env with
    | Fulfilled result => Resolve result
    | Failure err => Reject err
    end in
  if socketOpen c then
    match instance_sendRequest c payload (getSequence (wakeClock env)) with
    | Ok request => ([Sleep delay; Send request; settle], c)
    | Throw err => ([Sleep delay; Uncaught err], c)
    end
  else
    match instance_sendRequest c payload (getSequence (wakeClock env + 5000)) with
    | Ok request => ([Sleep delay; Sleep 5000; Send request; settle], c)
    | Throw err => ([Sleep delay; Sleep 5000; Uncaught err], c)
    end.

Definition requests (effects : list Effect) : list Request :=
  omap (λ e, match e with Send r => Some r | _ => None end) effects.

(** Abnormal signals, each followed by the firing of the reconnect timeout
    it armed. *)
Fixpoint reconnect_cycles (sigs : list (Z * Signal)) (c : Client) : Res Client :=
  match sigs with
  | [] => Ok c
  | ts :: rest =>
      c <-- reconnect_timeout (handle ts.1 ts.2 c) ;;
      reconnect_cycles rest c
  end.

End Session.

(* ===================================================================== *)
(** * Counting the answers given to the host *)
(* ===================================================================== *)

Module BlindsSteps.
Import Js Blinds.
Local Open Scope Q_scope.





End BlindsSteps.

(* ===================================================================== *)
(** * Switches and the fan with light *)
(* ===================================================================== *)

Module Fan.
Import Js Blinds.
Local Open Scope Q_scope.

(** [switches[i].switch] *)
Definition read (l : list Switch) (i : Z) : Res string :=
  match at_index l i with
  | Some s => Ok (switch s)
  | None => Throw "TypeError: cannot read property 'switch' of undefined"
  end.

(** What a set or get handler does to the outside, in order. *)
Inductive Event :=
| Command (switches : list Switch)
| SetActive (active : bool)
| Answer (value : option Q)
| AnswerError (err : string).

(** How [updateDeviceStatus] ends. *)
Inductive Outcome := Done | Failed (err : string).

(** [setFanSpeed(accessory, value, callback)]: the relay array after the
    writes (it is the shared array of the device) and what follows.  The
    notch is left undefined when no branch is taken. *)
Definition setFanSpeed (value : Q) (outcome : Outcome) (switches : list Switch)
    : Res (list Switch * list Event) :=
  written <--
    (if Qlt_bool value 33 then
       r <-- write_switch 1 "off" switches ;;
       r <-- write_switch 2 "off" r ;;
       r <-- write_switch 3 "off" r ;;
       Ok (r, Some 0)
     else if Qle_bool 33 value && Qlt_bool value 66 then
       r <-- write_switch 1 "on" switches ;;
       r <-- write_switch 2 "off" r ;;
       r <-- write_switch 3 "off" r ;;
       Ok (r, Some 33)
     else if Qle_bool 66 value && Qlt_bool value 99 then
       r <-- write_switch 1 "on" switches ;;
       r <-- write_switch 2 "on" r ;;
       r <-- write_switch 3 "off" r ;;
       Ok (r, Some 66)
     else if Qle_bool 99 value then
       r <-- write_switch 1 "on" switches ;;
       r <-- write_switch 2 "off" r ;;
       r <-- write_switch 3 "on" r ;;
       Ok (r, Some 100)
     else Ok (switches, None)) ;;
  let '(r, setValue) := written in
  match outcome with
  | Done =>
      s1 <-- read r 1 ;;
      Ok (r, [Command r; SetActive (String.eqb s1 "on"); Answer setValue])
  | Failed err => Ok (r, [Command r; AnswerError err])
  end.

(** [getFanSpeed], once the status query has resolved with [switches];
    the speed is undefined when no branch assigns it. *)
Definition getFanSpeed (switches : list Switch) : Res (option Q) :=
  s1 <-- read switches 1 ;;
  if String.eqb s1 "off" then Ok (Some 0)
  else
    s2 <-- read switches 2 ;;
    if String.eqb s2 "off" then
      s3 <-- read switches 3 ;;
      if String.eqb s3 "off" then Ok (Some 33)
      else if String.eqb s3 "on" then Ok (Some 100)
      else Ok None
    else if String.eqb s2 "on" then
      s3 <-- read switches 3 ;;
      if String.eqb s3 "off" then Ok (Some 66) else Ok None
    else Ok None.

(** [updateFanSpeedCharacteristic]: the values set for Active and for
    RotationSpeed on a push. *)
Definition updateFanSpeedCharacteristic (state1 state2 state3 : string) : bool * Q :=
  if String.eqb state1 "on" && String.eqb state2 "off" && String.eqb state3 "off"
  then (true, 33)
  else if String.eqb state1 "on" && String.eqb state2 "on" && String.eqb state3 "off"
  then (true, 66)
  else if String.eqb state1 "on" && String.eqb state2 "off" && String.eqb state3 "on"
  then (true, 100)
  else (false, 0).

(** [setFanLightState(accessory, isOn, callback)] *)
Definition setFanLightState (isOn : bool) (outcome : Outcome) (switches : list Switch)
    : Res (list Switch * list Event) :=
  let targetState := if isOn then "on"%string else "off"%string in
  r <-- write_switch 0 targetState switches ;;
  match outcome with
  | Done => Ok (r, [Command r; Answer (Some (if isOn then 1 else 0))])
  | Failed err => Ok (r, [Command r; AnswerError err])
  end.

(** [processSwitchState]: the answer given to the host and the new value of
    [accessory.reachable].  [switchesCount] and [channel] are
    [context.switches] and [context.channel]; [single] is [params.switch]. *)
Definition processSwitchState (switchesCount channel : Z) (single : option string)
    (switches : list Switch) (switchNumber : option Z) : Res (bool * Event) :=
  let decode (s : option string) : bool * Event :=
    match s with
    | Some s =>
        if String.eqb s "on" then (true, Answer (Some 1))
        else if String.eqb s "off" then (true, Answer (Some 0))
        else (false, AnswerError "API returned an unknown status for device")
    | None => (false, AnswerError "API returned an unknown status for device")
    end in
  let truthy := match switchNumber with Some n => negb (n =? 0)%Z | None => false end in
  if truthy || (1 <? switchesCount)%Z then
    let switchNumber := default (channel - 1)%Z switchNumber in
    s <-- read switches switchNumber ;;
    Ok (decode (Some s))
  else Ok (decode single).

End Fan.

(* ===================================================================== *)
(** * Device types and channel counts *)
(* ===================================================================== *)

Module Devices.

Definition MAPPING : list (Z * string) :=
  [(1, "SOCKET"); (2, "SOCKET_2"); (3, "SOCKET_3"); (4, "SOCKET_4");
   (5, "SOCKET_POWER"); (6, "SWITCH"); (7, "SWITCH_2"); (8, "SWITCH_3");
   (9, "SWITCH_4"); (10, "OSPF"); (11, "CURTAIN"); (12, "EW-RE");
   (13, "FIREPLACE"); (14, "SWITCH_CHANGE"); (15, "THERMOSTAT");
   (16, "COLD_WARM_LED"); (17, "THREE_GEAR_FAN"); (18, "SENSORS_CENTER");
   (19, "HUMIDIFIER"); (22, "RGB_BALL_LIGHT"); (23, "NEST_THERMOSTAT");
   (24, "GSM_SOCKET"); (25, "AROMATHERAPY"); (26, "BJ_THERMOSTAT");
   (27, "GSM_UNLIMIT_SOCKET"); (28, "RF_BRIDGE"); (29, "GSM_SOCKET_2");
   (30, "GSM_SOCKET_3"); (31, "GSM_SOCKET_4"); (32, "POWER_DETECTION_SOCKET");
   (33, "LIGHT_BELT"); (34, "FAN_LIGHT"); (35, "EZVIZ_CAMERA");
   (36, "SINGLE_CHANNEL_DIMMER_SWITCH"); (38, "HOME_KIT_BRIDGE");
   (40, "FUJIN_OPS"); (41, "CUN_YOU_DOOR");
   (42, "SMART_BEDSIDE_AND_NEW_RGB_BALL_LIGHT"); (43, ""); (44, "");
   (45, "DOWN_CEILING_LIGHT"); (46, "AIR_CLEANER"); (49, "MACHINE_BED");
   (51, "COLD_WARM_DESK_LIGHT"); (52, "DOUBLE_COLOR_DEMO_LIGHT");
   (53, "ELECTRIC_FAN_WITH_LAMP"); (55, "SWEEPING_ROBOT");
   (56, "RGB_BALL_LIGHT_4"); (57, "MONOCHROMATIC_BALL_LIGHT");
   (59, "MEARICAMERA"); (77, "MICRO"); (1001, "BLADELESS_FAN");
   (1002, "NEW_HUMIDIFIER"); (1003, "WARM_AIR_BLOWER")]%Z%string.

Definition DEVICE_CHANNEL_LENGTH : list (string * Z) :=
  [("SOCKET", 1); ("SWITCH_CHANGE", 1); ("GSM_UNLIMIT_SOCKET", 1);
   ("SWITCH", 1); ("THERMOSTAT", 1); ("SOCKET_POWER", 1); ("GSM_SOCKET", 1);
   ("POWER_DETECTION_SOCKET", 1); ("MICRO", 4); ("SOCKET_2", 2);
   ("GSM_SOCKET_2", 2); ("SWITCH_2", 2); ("SOCKET_3", 3); ("GSM_SOCKET_3", 3);
   ("SWITCH_3", 3); ("SOCKET_4", 4); ("GSM_SOCKET_4", 4); ("SWITCH_4", 4);
   ("CUN_YOU_DOOR", 4); ("FAN_LIGHT", 4)]%Z%string.

Fixpoint lookupZ {A} (k : Z) (l : list (Z * A)) : option A :=
  match l with
  | [] => None
  | (k', v) :: l' => if (k =? k')%Z then Some v else lookupZ k l'
  end.

Fixpoint lookupS {A} (k : string) (l : list (string * A)) : option A :=
  match l with
  | [] => None
  | (k', v) :: l' => if String.eqb k k' then Some v else lookupS k l'
  end.

(** [MAPPING[uiid] || ""] *)
Definition getDeviceTypeByUiid (uiid : Z) : string :=
  default ""%string (lookupZ uiid MAPPING).

(** [DEVICE_CHANNEL_LENGTH[deviceType] || 0] *)
Definition getDeviceChannelCountByType (deviceType : string) : Z :=
  default 0%Z (lookupS deviceType DEVICE_CHANNEL_LENGTH).

(** [getDeviceChannelCount(device)], from [device.uiid]. *)
Definition getDeviceChannelCount (uiid : Z) : Z :=
  getDeviceChannelCountByType (getDeviceTypeByUiid uiid).

(** [context.switches] as [addAccessory] leaves it: 1, raised to the
    channel count when that is more than one. *)
Definition addAccessory_switches (uiid : Z) : Z :=
  let switchesAmount := getDeviceChannelCount uiid in
  if (1 <? switchesAmount)%Z then switchesAmount else 1%Z.

End Devices.

(* ===================================================================== *)
(** * Facts about the expiring cache *)
(* ===================================================================== *)

Section CacheFacts.
Context {T : Type}.
Import Cache.
Implicit Types (c : Cache.t T) (k : string) (l : list Timeout).

Lemma insert_timer_perm x l : insert_timer x l ≡ₚ x :: l.
Proof.
  induction l as [|y l IH]; simpl; [done|].
  case_decide; [done|]. rewrite IH. apply Permutation_swap.
Qed.

Lemma sort_timers_perm l : sort_timers l ≡ₚ l.
Proof.
  unfold sort_timers. rewrite <- (reverse_Permutation l) at 2.
  induction (reverse l) as [|x r IH]; simpl; [done|].
  by rewrite insert_timer_perm, IH.
Qed.

Lemma wf_create d : wf (create (T:=T) d).
Proof. intros x Hx. by apply elem_of_nil in Hx. Qed.

Lemma wf_clearTimer k c : wf c → wf (_clearTimer k c).
Proof.
  intros Hwf. unfold _clearTimer. destruct (timerMap c !! k); [|done].
  intros x Hx. simpl in *. apply list_elem_of_filter in Hx as [_ Hx]. by apply Hwf.
Qed.

Lemma clearTimer_no_key k c x :
  wf c → x ∈ pending (_clearTimer k c) → timerKey x ≠ k.
Proof.
  intros Hwf Hx Hk. unfold _clearTimer in Hx.
  destruct (timerMap c !! k) as [old|] eqn:Hold.
  - simpl in Hx. apply list_elem_of_filter in Hx as [Hne Hx].
    apply Hwf in Hx. rewrite Hk, Hold in Hx. congruence.
  - apply Hwf in Hx. rewrite Hk, Hold in Hx. congruence.
Qed.

Lemma wf_set now k (v : T) ttl c : wf c → wf (set now k v ttl c).
Proof.
  intros Hwf x Hx. unfold set in *; simpl in *.
  apply elem_of_app in Hx as [Hx|Hx].
  - pose proof (clearTimer_no_key _ _ _ Hwf Hx) as Hne.
    rewrite lookup_insert_ne by done.
    assert (timerMap (_clearTimer k c) = timerMap c) as ->.
    { unfold _clearTimer. by destruct (timerMap c !! k). }
    apply (wf_clearTimer k) in Hwf. apply Hwf in Hx.
    revert Hx. unfold _clearTimer. by destruct (timerMap c !! k).
  - apply list_elem_of_singleton in Hx as ->. simpl. by rewrite lookup_insert_eq.
Qed.

Lemma wf_delete k c : wf c → wf (delete k c).
Proof. intros Hwf. apply wf_clearTimer. exact Hwf. Qed.

Lemma run_timerMap l c : timerMap (run l c) = timerMap c.
Proof. revert c. induction l as [|x l IH]; intros c; simpl; [done|]. by rewrite IH. Qed.

Lemma run_pending l c : pending (run l c) = pending c.
Proof. revert c. induction l as [|x l IH]; intros c; simpl; [done|]. by rewrite IH. Qed.

Lemma wf_advance upto c : wf c → wf (advance upto c).
Proof.
  intros Hwf x. unfold advance. rewrite run_pending, run_timerMap. simpl.
  intros Hx. apply list_elem_of_filter in Hx as [_ Hx]. by apply Hwf.
Qed.

(** A timer of another key leaves the view of [k] alone. *)
Lemma fire_other k x c : timerKey x ≠ k → obs k (fire x c) = obs k c.
Proof.
  intros Hne. unfold obs, expiry_events, fire; simpl.
  rewrite lookup_delete_ne by done. f_equal.
  destruct (bool_decide _); [|done].
  rewrite filter_app, filter_cons_False, filter_nil by done.
  by rewrite app_nil_r.
Qed.

Lemma fire_same x c :
  obs (timerKey x) (fire x c) =
  (None, expiry_events (timerKey x) c ++
         if bool_decide (is_Some (cacheMap c !! timerKey x))
         then [(due x, timerKey x)] else []).
Proof.
  unfold obs, expiry_events, fire; simpl.
  rewrite lookup_delete_eq. f_equal.
  destruct (bool_decide _); [|by rewrite app_nil_r].
  by rewrite filter_app, filter_cons_True, filter_nil.
Qed.

Lemma fire_obs_congr k x c c' :
  obs k c = obs k c' → obs k (fire x c) = obs k (fire x c').
Proof.
  intros Heq. destruct (decide (timerKey x = k)) as [<-|Hne].
  - rewrite !fire_same. unfold obs in Heq. by inversion Heq as [[H1 H2]]; rewrite H1.
  - by rewrite !fire_other.
Qed.

Lemma run_obs_congr k l c c' :
  obs k c = obs k c' → obs k (run l c) = obs k (run l c').
Proof.
  revert c c'. induction l as [|x l IH]; intros c c' Heq; simpl; [done|].
  apply IH. by apply fire_obs_congr.
Qed.

(** Only the timers of [k] matter to the view of [k]. *)
Lemma run_filter k l c :
  obs k (run l c) = obs k (run (filter (λ x, timerKey x = k) l) c).
Proof.
  revert c. induction l as [|x l IH]; intros c; [done|].
  destruct (decide (timerKey x = k)) as [Heq|Hne].
  - rewrite filter_cons_True by done. simpl. apply IH.
  - rewrite filter_cons_False by done. simpl. rewrite <- IH.
    apply run_obs_congr. by apply fire_other.
Qed.

Lemma filter_key_due k upto l :
  filter (λ x, timerKey x = k) (filter (λ x : Timeout, (due x ≤ upto)%Z) l) =
  filter (λ x : Timeout, (due x ≤ upto)%Z) (filter (λ x, timerKey x = k) l).
Proof.
  induction l as [|x l IH]; [done|].
  destruct (decide (timerKey x = k)), (decide (due x ≤ upto)%Z);
    repeat first [rewrite filter_cons_True by done | rewrite filter_cons_False by done];
    by rewrite ?IH.
Qed.

Lemma filter_none k l :
  (∀ x, x ∈ l → timerKey x ≠ k) → filter (λ x, timerKey x = k) l = [].
Proof.
  induction l as [|x l IH]; intros H; [done|].
  rewrite filter_cons_False by (apply H; left).
  apply IH. intros y Hy. apply H. by right.
Qed.

(** After [set], the one pending timer of the key is the new one. *)
Lemma set_pending_key now k (v : T) ttl c :
  wf c →
  filter (λ x, timerKey x = k) (pending (set now k v ttl c)) =
  [mkTimeout (nextTimer c) (now + timerDelay ttl) k].
Proof.
  intros Hwf. unfold set; simpl. rewrite filter_app.
  assert (nextTimer (_clearTimer k c) = nextTimer c) as ->.
  { unfold _clearTimer. by destruct (timerMap c !! k). }
  rewrite filter_cons_True, filter_nil by done.
  assert (filter (λ x, timerKey x = k) (pending (_clearTimer k c)) = []) as ->; [|done].
  apply filter_none. intros x Hx. by eapply clearTimer_no_key.
Qed.

Lemma set_obs now k (v : T) ttl c :
  obs k (set now k v ttl c) = (Some v, expiry_events k c).
Proof.
  unfold obs, set, expiry_events; simpl. rewrite lookup_insert_eq. f_equal.
  unfold _clearTimer. by destruct (timerMap c !! k).
Qed.

Lemma timerDelay_id ms : (1 ≤ ms ≤ TIMEOUT_MAX)%Z → timerDelay ms = ms.
Proof. intros H. unfold timerDelay. by rewrite decide_True. Qed.

(** One [set] followed by the passage of time: the value is there until
    the timer is due, then it is gone and one event has been emitted. *)
Lemma set_then_advance_delay now k (v : T) ttl upto c :
  wf c →
  obs k (advance upto (set now k v ttl c)) =
  if decide (now + timerDelay ttl ≤ upto)%Z
  then (None, expiry_events k c ++ [((now + timerDelay ttl)%Z, k)])
  else (Some v, expiry_events k c).
Proof.
  intros Hwf. unfold advance. rewrite run_filter.
  assert (filter (λ x, timerKey x = k)
            (sort_timers (filter (λ x, (due x ≤ upto)%Z) (pending (set now k v ttl c)))) =
          if decide (now + timerDelay ttl ≤ upto)%Z
          then [mkTimeout (nextTimer c) (now + timerDelay ttl) k] else []) as ->.
  { pose proof (sort_timers_perm
      (filter (λ x, (due x ≤ upto)%Z) (pending (set now k v ttl c)))) as Hp.
    apply (filter_Permutation (λ x, timerKey x = k)) in Hp.
    rewrite filter_key_due, set_pending_key in Hp by done.
    case_decide.
    - rewrite filter_cons_True, filter_nil in Hp by done.
      by apply Permutation_singleton_r in Hp.
    - rewrite filter_cons_False, filter_nil in Hp by done.
      by apply Permutation_nil_r in Hp. }
  set (c' := mk _ _ _ _ _ _).
  assert (obs k c' = (Some v, expiry_events k c)) as Hc'.
  { rewrite <- (set_obs now k v ttl c). reflexivity. }
  case_decide; simpl; [|done].
  change k with (timerKey (mkTimeout (nextTimer c) (now + timerDelay ttl) k)) at 1.
  rewrite fire_same. simpl. unfold obs in Hc'. inversion Hc' as [[H1 H2]].
  rewrite H1, H2. rewrite bool_decide_eq_true_2 by eauto. done.
Qed.

Lemma set_then_advance now k (v : T) ttl upto c :
  wf c → (1 ≤ ttl ≤ TIMEOUT_MAX)%Z →
  obs k (advance upto (set now k v ttl c)) =
  if decide (now + ttl ≤ upto)%Z
  then (None, expiry_events k c ++ [((now + ttl)%Z, k)])
  else (Some v, expiry_events k c).
Proof.
  intros Hwf Hb. rewrite set_then_advance_delay by done.
  by rewrite timerDelay_id.
Qed.

(** C7, amended.  For a duration of at most [TIMEOUT_MAX] milliseconds, setting a
    key and setting it again before the first duration has elapsed (other
    timers may fire in between) produces exactly one expiry event for that
    key.  It is emitted one duration after the second call and carries the
    key alone; until then the cache holds the second value, afterwards
    nothing.  The second [set] has cleared the first timer. *)
Theorem cache_reset_single_expiry k (v v2 : T) ttl t1 t2 upto c :
  wf c → (t1 ≤ t2)%Z → (t2 < t1 + ttl)%Z → (ttl ≤ TIMEOUT_MAX)%Z →
  let c1 := set t1 k v ttl c in
  let c2 := set t2 k v2 ttl (advance t2 c1) in
  (∀ x, x ∈ pending c2 → timerKey x = k → due x = (t2 + ttl)%Z) ∧
  expiry_events k (advance upto c2) =
    expiry_events k c ++
      (if decide (t2 + ttl ≤ upto)%Z then [((t2 + ttl)%Z, k)] else []) ∧
  get k (advance upto c2) =
    if decide (t2 + ttl ≤ upto)%Z then None else Some v2.
Proof.
  intros Hwf Hle Hlt Hmax c1 c2.
  assert (1 ≤ ttl ≤ TIMEOUT_MAX)%Z as Hb by lia.
  assert (wf (advance t2 c1)) as Hwf1 by (apply wf_advance, wf_set, Hwf).
  assert (expiry_events k (advance t2 c1) = expiry_events k c) as Hev.
  { pose proof (set_then_advance t1 k v ttl t2 c Hwf Hb) as H.
    rewrite decide_False in H by lia. by inversion H. }
  split; [|].
  - intros x Hx Hk.
    assert (x ∈ filter (λ x, timerKey x = k) (pending c2)) as Hin
      by (by apply list_elem_of_filter).
    unfold c2 in Hin. rewrite set_pending_key, timerDelay_id in Hin by done.
    by apply list_elem_of_singleton in Hin as ->.
  - pose proof (set_then_advance t2 k v2 ttl upto _ Hwf1 Hb) as H.
    fold c1 c2 in H. rewrite Hev in H. unfold obs, get in *.
    case_decide; inversion H as [[H1 H2]]; rewrite ?app_nil_r; done.
Qed.

End CacheFacts.

(* ===================================================================== *)
(** * Facts about the websocket client *)
(* ===================================================================== *)

Section ClientFacts.
Import Js WebSocketClient.

(** ** Sequence values *)

Lemma to_int_not_nil (z : Z) :
  Z.to_int z ≠ Decimal.Pos Decimal.Nil ∧ Z.to_int z ≠ Decimal.Neg Decimal.Nil.
Proof.
  destruct z as [|p|p]; simpl; split; try discriminate; intros [= H];
    pose proof (DecimalPos.Unsigned.to_uint_nonnil p); congruence.
Qed.

(** A sequence string reads back as the clock value it was made from. *)
Lemma sequenceValue_getSequence (now : Z) :
  sequenceValue (getSequence now) = Some now.
Proof.
  unfold sequenceValue, getSequence.
  destruct (to_int_not_nil now) as [H1 H2].
  rewrite NilZero.isi by assumption. simpl. f_equal. apply DecimalZ.of_to.
Qed.

Lemma getSequence_inj (t1 t2 : Z) : getSequence t1 = getSequence t2 → t1 = t2.
Proof.
  intros H. apply (f_equal sequenceValue) in H.
  rewrite !sequenceValue_getSequence in H. congruence.
Qed.

(** C5, as stated, fails: two requests issued in the same millisecond
    carry the same sequence value, so the later value is not strictly
    greater. *)
Lemma getSequence_same_millisecond :
  ¬ (∀ t1 t2 v1 v2 : Z,
       (t1 ≤ t2)%Z →
       sequenceValue (getSequence t1) = Some v1 →
       sequenceValue (getSequence t2) = Some v2 →
       (v1 < v2)%Z).
Proof.
  intros H.
  specialize (H 1700000000000 1700000000000 1700000000000 1700000000000)%Z.
  assert (1700000000000 < 1700000000000)%Z; [|lia].
  apply H; [lia| |]; apply sequenceValue_getSequence.
Qed.

(** C5, amended.  With a clock that does not run backwards, the sequence
    value of a later request is at least that of an earlier one; it is
    strictly greater exactly when the clock has advanced between the two
    requests, and the two strings coincide exactly when it has not. *)
Theorem getSequence_monotone (t1 t2 : Z) :
  (t1 ≤ t2)%Z →
  ∃ v1 v2,
    sequenceValue (getSequence t1) = Some v1 ∧
    sequenceValue (getSequence t2) = Some v2 ∧
    (v1 ≤ v2)%Z ∧
    ((v1 < v2)%Z ↔ (t1 < t2)%Z) ∧
    (getSequence t1 = getSequence t2 ↔ t1 = t2).
Proof.
  intros Hle. exists t1, t2. rewrite !sequenceValue_getSequence.
  repeat split; try done.
  - apply getSequence_inj.
  - by intros ->.
Qed.

Lemma getSequence_monotone_witness :
  (1000 ≤ 1001)%Z ∧
  ∃ v1 v2,
    sequenceValue (getSequence 1000) = Some v1 ∧
    sequenceValue (getSequence 1001) = Some v2 ∧
    (v1 ≤ v2)%Z ∧
    ((v1 < v2)%Z ↔ (1000 < 1001)%Z) ∧
    (getSequence 1000 = getSequence 1001 ↔ 1000%Z = 1001%Z).
Proof. split; [lia | apply (getSequence_monotone 1000 1001); lia]. Defined.

(** ** The decoder *)

(** C9.  The bare text [pong] is returned as it is and [JSON.parse] is not
    called for it, whatever the parser would do; every other payload is
    handed to [JSON.parse], whose result (or exception) is the decoder's. *)
Theorem unpackMessage_pong_first (JSON_parse : string → Res JsValue) :
  unpackMessage JSON_parse "pong" =
    ([LogDebug "unpackMessage: %s" "pong"], Heartbeat "pong") ∧
  (∀ text, JsonParse text ∉ (unpackMessage JSON_parse "pong").1) ∧
  (∀ data, data ≠ "pong"%string →
     unpackMessage JSON_parse data =
       ([LogDebug "unpackMessage: %s" data; JsonParse data],
        Json (JSON_parse data))).
Proof.
  split; [reflexivity|]. split.
  - intros text Hin. simpl in Hin.
    apply list_elem_of_singleton in Hin. discriminate.
  - intros data Hne. unfold unpackMessage.
    destruct (String.eqb_spec data "pong"); [contradiction|reflexivity].
Qed.

Lemma unpackMessage_pong_first_witness :
  unpackMessage (λ _, Throw "SyntaxError") "{}" =
    ([LogDebug "unpackMessage: %s" "{}"; JsonParse "{}"],
     Json (Throw "SyntaxError")).
Proof.
  apply (unpackMessage_pong_first (λ _, Throw "SyntaxError")). discriminate.
Defined.

(** ** Request ids *)

Lemma obj_get_replace k k' v (o : Obj) :
  is_Some (obj_get k' o) →
  obj_get k (obj_replace k' v o) = if String.eqb k k' then Some v else obj_get k o.
Proof.
  induction o as [|[k0 v0] o IH]; simpl; intros Hin.
  - by destruct Hin.
  - destruct (String.eqb_spec k' k0) as [->|Hne]; simpl.
    + by destruct (String.eqb k k0).
    + destruct (String.eqb_spec k k0) as [->|Hne'].
      * destruct (String.eqb_spec k0 k'); [congruence|done].
      * by apply IH.
Qed.

Lemma obj_get_add k k' v (o : Obj) :
  obj_get k' o = None →
  obj_get k (obj_add k' v o) = if String.eqb k k' then Some v else obj_get k o.
Proof.
  induction o as [|[k0 v0] o IH]; simpl; intros Hout.
  - by destruct (String.eqb k k').
  - destruct (String.eqb_spec k' k0) as [->|Hne]; [done|].
    destruct (match array_index k', array_index k0 with
              | Some n, Some n' => (n <? n')%N
              | Some _, None => true
              | None, _ => false
              end); simpl.
    + by destruct (String.eqb k k').
    + destruct (String.eqb_spec k k0) as [->|Hne'].
      * destruct (String.eqb_spec k0 k'); [congruence|done].
      * by apply IH.
Qed.

Lemma obj_get_set k k' v (o : Obj) :
  obj_get k (obj_set k' v o) = if String.eqb k k' then Some v else obj_get k o.
Proof.
  unfold obj_set. destruct (obj_get k' o) eqn:Hk'.
  - apply obj_get_replace. by rewrite Hk'.
  - by apply obj_get_add.
Qed.

Lemma Object_assign_snoc (target src : Obj) k v :
  Object_assign target (src ++ [(k, v)]) = obj_set k v (Object_assign target src).
Proof. unfold Object_assign. by rewrite foldl_app. Qed.

Lemma obj_get_app_None k (o o' : Obj) :
  obj_get k o = None → obj_get k (o ++ o') = obj_get k o'.
Proof.
  induction o as [|[k0 v0] o IH]; simpl; [done|].
  destruct (String.eqb k k0); [done|exact IH].
Qed.

Lemma obj_get_app_Some k v (o o' : Obj) :
  obj_get k o = Some v → obj_get k (o ++ o') = Some v.
Proof.
  induction o as [|[k0 v0] o IH]; simpl; [done|].
  destruct (String.eqb k k0); [done|exact IH].
Qed.

Lemma obj_get_Some_key k v (o : Obj) : obj_get k o = Some v → k ∈ o.*1.
Proof.
  induction o as [|[k0 v0] o IH]; simpl; [done|].
  destruct (String.eqb_spec k k0) as [->|Hne]; intros H; [left|right; auto].
Qed.

(** A property of the source of [Object.assign] wins over the target's. *)
Lemma Object_assign_get k (target src : Obj) :
  NoDup src.*1 →
  obj_get k (Object_assign target src) =
  match obj_get k src with Some v => Some v | None => obj_get k target end.
Proof.
  induction src as [|[k' v'] src IH] using rev_ind; intros Hnd; [done|].
  rewrite Object_assign_snoc, obj_get_set.
  rewrite fmap_app in Hnd. apply NoDup_app in Hnd as (Hnd & Hfresh & _).
  specialize (IH Hnd).
  destruct (obj_get k src) as [v|] eqn:Hsrc.
  - rewrite (obj_get_app_Some _ _ _ _ Hsrc).
    destruct (String.eqb_spec k k') as [->|Hne]; [|exact IH].
    exfalso. apply (Hfresh k'); [by eapply obj_get_Some_key|simpl; left].
  - rewrite (obj_get_app_None _ _ _ Hsrc). simpl.
    destruct (String.eqb k k'); [done|exact IH].
Qed.

(** C10.  A payload that carries its own [sequence] keeps it when the
    request id is attached, and the id is lost from the wire.  The login
    request of [onopen] therefore goes out with the value of the first
    [getSequence()] call while the client waits under the value of the
    second; the two differ whenever the clock read differently in the two
    calls. *)
Theorem attachRequestId_keeps_payload_sequence :
  (∀ (data : Obj) requestId s,
     NoDup data.*1 →
     obj_get "sequence" data = Some s →
     extractRequestId (attachRequestId data requestId) = Some s) ∧
  (∀ cfg t1 ts t2 nonce,
     let r := onopen_request cfg t1 ts t2 nonce in
     extractRequestId (wire r) = Some (JStr (getSequence t1)) ∧
     correlationKey r = getSequence t2 ∧
     (t1 ≠ t2 → extractRequestId (wire r) ≠ Some (JStr (correlationKey r)))).
Proof.
  split.
  - intros data requestId s Hnd Hs. unfold extractRequestId, attachRequestId.
    by rewrite Object_assign_get, Hs.
  - intros cfg t1 ts t2 nonce r.
    assert (extractRequestId (wire r) = Some (JStr (getSequence t1))) as Hw
      by reflexivity.
    split; [exact Hw|]. split; [reflexivity|].
    intros Hne. rewrite Hw. simpl. intros [= H]. by apply getSequence_inj in H.
Qed.

Lemma attachRequestId_keeps_payload_sequence_witness :
  extractRequestId
    (attachRequestId [("action"%string, JStr "query"); ("sequence"%string, JStr "41")] "42")
  = Some (JStr "41") ∧
  extractRequestId (wire (onopen_request (mkConfig "token" "key") 1000 1000 1001 "bm9uY2U="))
  ≠ Some (JStr (correlationKey (onopen_request (mkConfig "token" "key") 1000 1000 1001 "bm9uY2U="))).
Proof.
  split.
  - apply (proj1 attachRequestId_keeps_payload_sequence); [|reflexivity].
    apply (bool_decide_unpack _). vm_compute. exact I.
  - apply (proj2 attachRequestId_keeps_payload_sequence (mkConfig "token" "key")
             1000%Z 1000%Z 1001%Z "bm9uY2U="%string). lia.
Defined.

End ClientFacts.

Section SessionFacts.
Import Js WebSocketClient.

(** ** Reconnection *)

(** While a reconnect is pending, [reconnect] does nothing. *)
Lemma reconnect_pending now c :
  pendingReconnect c = true → reconnect now c = c.
Proof. intros H. unfold reconnect. by rewrite H. Qed.

Lemma handle_pending now s c :
  pendingReconnect c = true →
  pendingReconnect (handle now s c) = true ∧
  reconnectTimers (handle now s c) = reconnectTimers c.
Proof.
  intros H. destruct s as [code|code]; simpl.
  - unfold onCloseListener. destruct (code =? 1000)%Z; simpl;
      rewrite ?reconnect_pending by done; done.
  - unfold onErrorListener. destruct (String.eqb code "ECONNREFUSED"); simpl;
      rewrite ?reconnect_pending by done; done.
Qed.

Lemma handle_all_pending sigs c :
  pendingReconnect c = true →
  pendingReconnect (handle_all sigs c) = true ∧
  reconnectTimers (handle_all sigs c) = reconnectTimers c.
Proof.
  revert c. induction sigs as [|[now s] sigs IH]; intros c H; [done|].
  simpl. destruct (handle_pending now s c H) as [H1 H2].
  destruct (IH _ H1) as [H3 H4]. split; [done|congruence].
Qed.

Lemma handle_idle now s c :
  pendingReconnect c = false →
  if abnormal s
  then pendingReconnect (handle now s c) = true ∧
       reconnectTimers (handle now s c) =
         reconnectTimers c ++ [(now + autoReconnectInterval c)%Z]
  else pendingReconnect (handle now s c) = false ∧
       reconnectTimers (handle now s c) = reconnectTimers c.
Proof.
  intros H. destruct s as [code|code]; simpl.
  - unfold onCloseListener, reconnect. rewrite H.
    by destruct (code =? 1000)%Z.
  - unfold onErrorListener, reconnect. rewrite H.
    by destruct (String.eqb code "ECONNREFUSED").
Qed.

(** C6.  Starting with no reconnect pending, any series of close and error
    signals handled before the reconnect timeout fires arms one timeout if
    at least one signal is abnormal (a close code other than 1000, or
    ECONNREFUSED) and none otherwise; a close with code 1000 arms none; and
    [reconnect] called while one is pending changes nothing. *)
Theorem reconnect_scheduled_once :
  (∀ sigs c,
     pendingReconnect c = false → reconnectTimers c = [] →
     length (reconnectTimers (handle_all sigs c)) =
       if existsb (λ ts, abnormal ts.2) sigs then 1%nat else 0%nat) ∧
  (∀ now c,
     pendingReconnect c = false →
     reconnectTimers (onCloseListener now 1000 c) = reconnectTimers c ∧
     pendingReconnect (onCloseListener now 1000 c) = false) ∧
  (∀ now c, pendingReconnect c = true → reconnect now c = c).
Proof.
  split; [|split].
  - intros sigs. induction sigs as [|[now s] sigs IH]; intros c Hp Ht.
    + simpl. by rewrite Ht.
    + simpl. pose proof (handle_idle now s c Hp) as H.
      destruct (abnormal s); destruct H as [H1 H2].
      * destruct (handle_all_pending sigs _ H1) as [_ ->].
        rewrite H2, Ht. reflexivity.
      * apply IH; [done|congruence].
  - intros now c Hp. unfold onCloseListener. simpl. done.
  - apply reconnect_pending.
Qed.

Lemma reconnect_scheduled_once_witness :
  length
    (reconnectTimers
       (handle_all [(10%Z, Closed 1000); (20%Z, Closed 1006);
                    (30%Z, Failed "ECONNREFUSED"); (40%Z, Closed 1006)]
          (open "wss://host/api/ws" create)))
  = 1%nat.
Proof.
  exact (proj1 reconnect_scheduled_once
    [(10%Z, Closed 1000); (20%Z, Closed 1006);
     (30%Z, Failed "ECONNREFUSED"); (40%Z, Closed 1006)]
    (open "wss://host/api/ws" create) eq_refl eq_refl).
Defined.

(** When signals only reach the listeners that are still attached, the
    count is the same. *)
Lemma deliver_all_scheduled_once sigs c :
  pendingReconnect c = false → reconnectTimers c = [] →
  (length (reconnectTimers (deliver_all sigs c)) ≤ 1)%nat.
Proof.
  revert c. cut (∀ c, (length (reconnectTimers c) ≤ 1)%nat →
                      (pendingReconnect c = false → reconnectTimers c = []) →
                      (length (reconnectTimers (deliver_all sigs c)) ≤ 1)%nat).
  { intros H c Hp Ht. apply H; [by rewrite Ht; simpl; lia|done]. }
  induction sigs as [|[now s] sigs IH]; intros c Hlen Hinv; [done|].
  simpl. apply IH.
  - unfold deliver. destruct (instance c) as [i|]; [|done].
    destruct (listening i); [|done].
    destruct (pendingReconnect c) eqn:Hp.
    + by destruct (handle_pending now s c Hp) as [_ ->].
    + pose proof (handle_idle now s c Hp) as H. rewrite (Hinv eq_refl) in H.
      destruct (abnormal s); destruct H as [_ ->]; simpl; lia.
  - unfold deliver. destruct (instance c) as [i|]; [|done].
    destruct (listening i); [|done].
    destruct (pendingReconnect c) eqn:Hp.
    + destruct (handle_pending now s c Hp) as [-> _]. done.
    + pose proof (handle_idle now s c Hp) as H.
      destruct (abnormal s); destruct H as [H1 H2]; [congruence|].
      intros _. rewrite H2. by apply Hinv.
Qed.

(** ** The cached status query *)




(** C7, as stated, fails for a duration above [TIMEOUT_MAX]: the timer is
    armed with a delay of 1 ms.  With a duration of 2^31 ms the entry set at
    instant 0 expires at instant 1; set again at instant 10, well before the
    duration has elapsed, it expires at instant 11.  Two expiry events have
    been emitted for the key, neither of them one duration after a call. *)
Lemma cache_reset_beyond_timeout_max :
  let ttl := 2147483648%Z in
  let c1 := Cache.set 0 "k" 1%nat ttl (Cache.create 500) in
  let c2 := Cache.set 10 "k" 2%nat ttl (Cache.advance 10 c1) in
  (0 ≤ 10)%Z ∧ (10 < 0 + ttl)%Z ∧ (11 < 10 + ttl)%Z ∧
  Cache.expiry_events "k" (Cache.advance 11 c2) =
    [(1%Z, "k"%string); (11%Z, "k"%string)] ∧
  Cache.get "k" (Cache.advance 11 c2) = None.
Proof. vm_compute. repeat split; congruence. Qed.

Lemma cache_reset_single_expiry_witness :
  Cache.expiry_events "1000abcdef"
    (Cache.advance 1000
       (Cache.set 200 "1000abcdef" 2%nat 500
          (Cache.advance 200
             (Cache.set 0 "1000abcdef" 1%nat 500 (Cache.create 500)))))
  = [(700%Z, "1000abcdef"%string)].
Proof.
  apply (cache_reset_single_expiry "1000abcdef" 1%nat 2%nat 500 0 200 1000
           (Cache.create 500) (wf_create 500)); unfold Cache.TIMEOUT_MAX; lia.
Defined.

End SessionFacts.

(* ===================================================================== *)
(** * Facts about the blinds *)
(* ===================================================================== *)

Section BlindsFacts.
Import Js Blinds.
Local Open Scope Q_scope.

(** ** Numbers *)

Lemma Qlt_bool_iff (x y : Q) : Qlt_bool x y = true ↔ x < y.
Proof.
  unfold Qlt_bool. rewrite negb_true_iff, <- not_true_iff_false, Qle_bool_iff.
  split; [apply Qnot_le_lt|apply Qlt_not_le].
Qed.

Lemma Qlt_bool_false (x y : Q) : Qlt_bool x y = false ↔ y <= x.
Proof.
  unfold Qlt_bool. rewrite negb_false_iff. apply Qle_bool_iff.
Qed.

Lemma Qeq_bool_false (x y : Q) : Qeq_bool x y = false ↔ ¬ x == y.
Proof.
  split; [apply Qeq_bool_neq|].
  intros H. destruct (Qeq_bool x y) eqn:E; [|done].
  apply Qeq_bool_iff in E. contradiction.
Qed.

Lemma Math_round_comp (x y : Q) : x == y → Math_round x = Math_round y.
Proof. intros H. unfold Math_round. f_equal. apply Qfloor_comp. by rewrite H. Qed.

Lemma Math_round_Z (z : Z) : Math_round (inject_Z z) = inject_Z z.
Proof.
  unfold Math_round. f_equal.
  assert (inject_Z z <= inject_Z z + (1 # 2)) as Hlo by lra.
  assert (inject_Z z + (1 # 2) < inject_Z (z + 1)) as Hhi
    by (rewrite inject_Z_plus; change (inject_Z 1) with 1; lra).
  pose proof (Qfloor_le (inject_Z z + (1 # 2))) as H1.
  pose proof (Qlt_floor (inject_Z z + (1 # 2))) as H2.
  assert (inject_Z (Qfloor (inject_Z z + (1 # 2))) < inject_Z (z + 1)) as H3 by lra.
  assert (inject_Z z < inject_Z (Qfloor (inject_Z z + (1 # 2)) + 1)) as H4 by lra.
  rewrite <- Zlt_Qlt in H3, H4. lia.
Qed.

(** ** The relay array *)

Lemma at_index_write {A} (l : list A) i j v s :
  at_index l i = Some s →
  is_Some (at_index l j) → is_Some (at_index (<[Z.to_nat i := v]> l) j).
Proof.
  unfold at_index. destruct (i <? 0)%Z; [done|]. destruct (j <? 0)%Z; [done|].
  intros Hi [x Hj]. apply lookup_lt_is_Some. rewrite length_insert.
  by eapply lookup_lt_Some.
Qed.

Lemma prepare_ok w :
  relays_ok w →
  ∃ r, prepareBlindSwitchesPayload w = Ok (with_registry r w) ∧
       relays_ok (with_registry r w).
Proof.
  intros [[u Hu] Hd]. unfold prepareBlindSwitchesPayload.
  destruct (if (currentPositionState (context w) =? 2)%Z then _ else _)
    as [switch0 switch1].
  unfold write_switch at 1. rewrite Hu. simpl.
  pose proof (at_index_write _ _ (switchDown (context w))
                (mkSwitch switch0 (outlet u)) _ Hu Hd) as [d Hd'].
  unfold write_switch. rewrite Hd'. simpl.
  eexists. split; [reflexivity|].
  split; simpl; eapply at_index_write; eauto;
    eapply at_index_write; eauto.
Qed.

Lemma relays_ok_context c w :
  switchUp c = switchUp (context w) → switchDown c = switchDown (context w) →
  relays_ok w → relays_ok (with_context c w).
Proof. unfold relays_ok. simpl. by intros -> ->. Qed.

(** ** The stop routine *)

Lemma setFinalBlindsState_ok now w :
  relays_ok w →
  ∃ r, setFinalBlindsState now w =
         Ok (arm FinalStop (now + 1)
               (with_registry r
                  (with_context (set_currentPositionState 2 (context w)) w))).
Proof.
  intros Hok. unfold setFinalBlindsState.
  destruct (prepare_ok (with_context (set_currentPositionState 2 (context w)) w))
    as (r & Hr & _); [by apply relays_ok_context|].
  rewrite Hr. simpl. eauto.
Qed.

(** ** A move that starts from rest *)

Lemma commands_emit e w :
  commands (emit e w) =
  commands w ++ match e with UpdateDeviceStatus r => [r] | _ => [] end.
Proof. unfold commands, emit; simpl. rewrite omap_app. by destruct e. Qed.

(** The branch of [setTargetPosition] taken at rest when the target is
    not the last position. *)
Lemma setTargetPosition_from_rest now pos w :
  currentPositionState (context w) = STOPPED → relays_ok w →
  ¬ lastPosition (context w) == pos →
  let c := context w in
  let state := (if Qlt_bool (lastPosition c) pos then 0 else 1)%Z in
  let c' :=
    set_currentPositionState state
      (set_targetTimestamp (inject_Z now + duration pos c * 1000)
         (set_startTimestamp (inject_Z now)
            (set_currentTargetPosition pos c))) in
  ∃ r,
    setTargetPosition now pos w =
      Ok (arm StartMove (now + 1)
            (with_registry r
               (emit (SetCharacteristic PositionState (inject_Z state))
                  (with_context c' w)))) ∧
    relays_ok (with_registry r w).
Proof.
  intros Hs Hok Hne c state c'. unfold setTargetPosition.
  rewrite Hs. simpl negb. cbv iota.
  rewrite (proj2 (Qeq_bool_false _ _) Hne).
  fold c. fold state.
  change (duration pos (set_currentTargetPosition pos c)) with (duration pos c).
  destruct (prepare_ok
              (emit (SetCharacteristic PositionState (inject_Z state))
                 (with_context c' w))) as (r & Hr & Hok').
  { unfold relays_ok in *. simpl. exact Hok. }
  exists r. unfold c', state in Hr |- *. rewrite Hr. split; [reflexivity|].
  unfold relays_ok in *. exact Hok'.
Qed.

(** C2, as stated, fails: for a blind at position 100 whose ten seconds of
    travel down include two of bottom margin, the drive times to 0 and to 50
    are 10 and 4 seconds, computed in doubles as well as exactly.  No
    per-percent constant gives both under the rule that the margin is added
    only on leaving position 0: the margin of a move down is added on
    arriving at 0. *)
Lemma drive_time_margin_on_arrival :
  let c := context (Samples.fresh Samples.margins) in
  let c64 := Blinds64.context (Samples64.fresh Samples64.margins) in
  Blinds64.duration 0 c64 = 10%float ∧ Blinds64.duration 50 c64 = 4%float ∧
  duration 0 c == 10 ∧ duration 50 c == 4 ∧
  ¬ ∃ perPercentUp perPercentDown,
      duration 0 c == Described.duration perPercentUp perPercentDown 0 c ∧
      duration 50 c == Described.duration perPercentUp perPercentDown 50 c.
Proof.
  intros c c64.
  split; [vm_compute; reflexivity|]. split; [vm_compute; reflexivity|].
  assert (duration 0 c == 10) as H0 by (vm_compute; reflexivity).
  assert (duration 50 c == 4) as H50 by (vm_compute; reflexivity).
  split; [exact H0|]. split; [exact H50|].
  intros (perUp & perDown & E0 & E50).
  rewrite H0 in E0. rewrite H50 in E50.
  change (Described.duration perUp perDown 0 c)
    with (perDown * Qabs (0 - 100) + 0 + 0) in E0.
  change (Described.duration perUp perDown 50 c)
    with (perDown * Qabs (50 - 100) + 0 + 0) in E50.
  assert (Qabs (0 - 100) == 100) as A0 by reflexivity.
  assert (Qabs (50 - 100) == 50) as A50 by reflexivity.
  rewrite A0 in E0. rewrite A50 in E50. lra.
Qed.

(** ** A new target while moving *)

Lemma Qabs_zero (x : Q) : Qabs x == 0 → x == 0.
Proof. apply Qabs_case; intros; lra. Qed.

(** The branch of [setTargetPosition] that stretches or shortens the
    current run: nothing but the target instant and the target position
    changes, and only the callback is called. *)
Lemma setTargetPosition_extend now pos w :
  let c := context w in
  let diffTime :=
    if (currentPositionState c =? 1)%Z
    then Math_round (percentDurationDown c * (currentTargetPosition c - pos))
    else Math_round (percentDurationUp c * (pos - currentTargetPosition c)) in
  currentPositionState c ≠ STOPPED →
  ¬ pos == currentTargetPosition c →
  0 < targetTimestamp c - inject_Z now + diffTime →
  setTargetPosition now pos w =
    Ok (emit Callback
          (with_context
             (set_currentTargetPosition pos
                (set_targetTimestamp (targetTimestamp c + diffTime) c)) w)).
Proof.
  intros c diffTime Hs Hne Hdiff. unfold setTargetPosition. fold c.
  assert ((currentPositionState c =? 2)%Z = false) as -> by (by apply Z.eqb_neq).
  simpl negb. cbv iota.
  assert (Qeq_bool (Qabs (pos - currentTargetPosition c)) 0 = false) as ->.
  { apply Qeq_bool_false. intros H. apply Qabs_zero in H. apply Hne. lra. }
  fold diffTime.
  by rewrite (proj2 (Qlt_bool_iff _ _) Hdiff).
Qed.

(** C1, amended.  A blind at rest at position 0 whose full travel up takes
    ten seconds ([durationUp] is 10: the plugin keeps durations in seconds
    and derives 100 ms per percent), without margin or overdrive, is told to
    go to 50: it is Moving up with the target instant 5000 ms from now, and
    the relay command waits in the start timer.  Told to go to 100 at any
    instant less than 10000 ms after the first call, it stays Moving up, the
    target instant moves 5000 ms further, the target position is 100, and
    nothing else happens: no relay command, no timer, no change to the relay
    array, only the callback. *)
Theorem same_direction_extension now w :
  let c := context w in
  currentPositionState c = STOPPED → relays_ok w →
  lastPosition c == 0 → durationUp c == 10 →
  durationBMU c == 0 → fullOverdrive c == 0 →
  percentDurationUp c == durationUp c / 100 * 1000 →
  ∃ w1,
    setTargetPosition now 50 w = Ok w1 ∧
    currentPositionState (context w1) = MOVING_UP ∧
    targetTimestamp (context w1) == inject_Z now + 5000 ∧
    commands w1 = commands w ∧
    ∀ now2, (now2 < now + 10000)%Z →
      ∃ w2,
        setTargetPosition now2 100 w1 = Ok w2 ∧
        targetTimestamp (context w2) == targetTimestamp (context w1) + 5000 ∧
        currentTargetPosition (context w2) = 100 ∧
        currentPositionState (context w2) = MOVING_UP ∧
        startTimestamp (context w2) = startTimestamp (context w1) ∧
        lastPosition (context w2) = lastPosition (context w1) ∧
        commands w2 = commands w1 ∧
        registry w2 = registry w1 ∧
        timers w2 = timers w1 ∧
        trace w2 = trace w1 ++ [Callback].
Proof.
  intros c Hs Hok Hlast Hup Hbmu Hover Hpct.
  assert (Qlt_bool (lastPosition c) 50 = true) as Hmove
    by (apply Qlt_bool_iff; lra).
  assert (duration 50 c == 5) as Hdur.
  { unfold duration. rewrite Hmove.
    rewrite (proj2 (Qeq_bool_iff _ _) Hlast).
    change (Qeq_bool 50 0 || Qeq_bool 50 100) with false. cbv iota.
    rewrite (Math_round_comp _ (inject_Z 500)), Math_round_Z.
    - reflexivity.
    - rewrite Hlast, Hup, Hbmu. reflexivity. }
  destruct (setTargetPosition_from_rest now 50 w Hs Hok) as (r & Hr & _);
    [fold c; lra|].
  fold c in Hr. rewrite Hmove in Hr.
  eexists. split; [exact Hr|]. split; [reflexivity|].
  split; [cbn [context arm with_registry emit with_context targetTimestamp
               set_currentPositionState set_targetTimestamp]; lra|].
  split.
  { unfold commands. cbn [trace arm with_registry emit with_context].
    rewrite omap_app. apply app_nil_r. }
  intros now2 Hnow2.
  set (w1 := arm StartMove _ _) in *.
  assert (percentDurationUp c * (100 - 50) == inject_Z 5000) as Hstep.
  { rewrite Hpct, Hup. reflexivity. }
  assert (inject_Z now2 < inject_Z now + 10000) as Hq.
  { change 10000 with (inject_Z 10000). rewrite <- inject_Z_plus.
    by rewrite <- Zlt_Qlt. }
  rewrite (setTargetPosition_extend now2 100 w1).
  - eexists. split; [reflexivity|].
    rewrite commands_emit, app_nil_r.
    cbn [context arm with_registry emit with_context targetTimestamp
         currentTargetPosition currentPositionState startTimestamp lastPosition
         set_currentPositionState set_targetTimestamp set_startTimestamp
         set_currentTargetPosition registry timers trace w1 percentDurationUp
         Z.eqb].
    split.
    + rewrite (Math_round_comp _ _ Hstep), Math_round_Z.
      change (inject_Z 5000) with 5000. lra.
    + repeat split.
  - discriminate.
  - cbn [context arm with_registry emit with_context currentTargetPosition
         set_currentPositionState set_targetTimestamp set_startTimestamp
         set_currentTargetPosition w1].
    intros H. vm_compute in H. discriminate.
  - cbn [context arm with_registry emit with_context targetTimestamp
         currentTargetPosition currentPositionState percentDurationUp
         set_currentPositionState set_targetTimestamp set_startTimestamp
         set_currentTargetPosition w1 Z.eqb].
    rewrite (Math_round_comp _ _ Hstep), Math_round_Z.
    change (inject_Z 5000) with 5000. lra.
Qed.

Lemma same_direction_extension_witness :
  ∃ w1 w2,
    setTargetPosition 1000 50 (Samples.closed Samples.plain) = Ok w1 ∧
    targetTimestamp (context w1) == 6000 ∧
    setTargetPosition 1000 100 w1 = Ok w2 ∧
    targetTimestamp (context w2) == 11000 ∧
    commands w2 = [].
Proof.
  destruct (same_direction_extension 1000 (Samples.closed Samples.plain))
    as (w1 & Hrun & _ & Htarget & Hcmd & Hnext).
  - reflexivity.
  - split; eexists; reflexivity.
  - reflexivity.
  - reflexivity.
  - reflexivity.
  - reflexivity.
  - reflexivity.
  - destruct (Hnext 1000%Z) as (w2 & Hrun2 & Htarget2 & _ & _ & _ & _ & Hcmd2 & _).
    + lia.
    + exists w1, w2. split; [exact Hrun|]. split; [exact Htarget|].
      split; [exact Hrun2|]. split.
      * rewrite Htarget2, Htarget. reflexivity.
      * rewrite Hcmd2, Hcmd. reflexivity.
Defined.

(** C1, as stated, fails: with [durationUp] holding 10000 the target
    instant after [setTargetPosition(50)] is 5000000 ms from now, not about
    5000 ms. *)
Lemma same_direction_extension_ms_reading :
  durationUp (context (Samples.closed Samples.plain_ms)) == 10000 ∧
  ∃ w1,
    setTargetPosition 1000 50 (Samples.closed Samples.plain_ms) = Ok w1 ∧
    currentPositionState (context w1) = MOVING_UP ∧
    targetTimestamp (context w1) == inject_Z 1000 + 5000000 ∧
    ¬ Qabs (targetTimestamp (context w1) - (inject_Z 1000 + 5000)) <= 1000.
Proof.
  split; [reflexivity|].
  eexists. split; [vm_compute; reflexivity|].
  split; [reflexivity|]. split; [vm_compute; reflexivity|].
  intros H. vm_compute in H. apply H. reflexivity.
Qed.

(** ** Both relays on *)

Lemma getBlindState_both_on switches c up down :
  at_index switches (switchUp c) = Some up →
  at_index switches (switchDown c) = Some down →
  switch up = "on"%string → switch down = "on"%string →
  getBlindState switches c = Ok ERROR.
Proof.
  intros Hu Hd Eu Ed. unfold getBlindState. by rewrite Hu, Hd, Eu, Ed.
Qed.

(** A push that reads as Error while the blind is at rest: the set handler
    finds the target equal to the last position and does nothing; no relay
    command is sent and no timer is armed. *)
Lemma error_push_at_rest now switches w :
  currentPositionState (context w) = STOPPED →
  getBlindState switches (context w) = Ok ERROR →
  ∃ w',
    updateBlindStateCharacteristic now switches w = Ok w' ∧
    currentPositionState (context w') = STOPPED ∧
    commands w' = commands w ∧
    timers w' = timers w ∧
    registry w' = registry w ∧
    trace w' =
      trace w ++ [SetCharacteristic TargetPosition (lastPosition (context w)); Callback].
Proof.
  intros Hs Hstate. unfold updateBlindStateCharacteristic.
  rewrite Hstate. simpl bind. change (ERROR =? 3)%Z with true. cbv iota.
  unfold actualPosition. rewrite Hs.
  change (STOPPED =? 1)%Z with false. change (STOPPED =? 0)%Z with false.
  cbv iota. unfold setCharacteristic_TargetPosition, setTargetPosition.
  cbn [context emit with_context currentPositionState lastPosition
       set_targetTimestamp set_currentTargetPosition].
  rewrite Hs. change (negb (STOPPED =? 2)%Z) with false. cbv iota.
  rewrite (proj2 (Qeq_bool_iff _ _) (Qeq_refl _)).
  eexists. split; [reflexivity|].
  rewrite !commands_emit.
  cbn [context emit with_context currentPositionState timers registry trace
       set_targetTimestamp set_currentTargetPosition commands].
  rewrite !app_nil_r, <- app_assoc. done.
Qed.

(** C4 at a blind that is at rest.  A freshly added blind (position 100,
    Stopped, no timer armed) receives a push in which both of its relays
    are on.  The push is read as Error, the blind stays Stopped, and no relay
    command is sent, then or later: no timer is armed, so the event loop has
    nothing to run. *)
Theorem error_push_at_rest_sends_nothing :
  getBlindState (Samples.relays "on" "on")
    (context (Samples.fresh Samples.plain)) = Ok ERROR ∧
  ∃ w',
    updateBlindStateCharacteristic 5 (Samples.relays "on" "on")
      (Samples.fresh Samples.plain) = Ok w' ∧
    currentPositionState (context w') = STOPPED ∧
    commands w' = [] ∧
    timers w' = [] ∧
    ∀ fuel upto, run_until fuel upto w' = Ok w'.
Proof.
  split; [reflexivity|].
  destruct (error_push_at_rest 5 (Samples.relays "on" "on")
              (Samples.fresh Samples.plain) eq_refl eq_refl)
    as (w' & Hrun & Hs & Hcmd & Htimers & _).
  exists w'. repeat split; try done.
  intros fuel upto. destruct fuel; simpl; [done|]. by rewrite Htimers.
Qed.

(** The same reading on the path of [getPositionState]: the state is set
    to Stopped and the stop routine runs, whose delayed part sends one relay
    command. *)
Lemma getPositionState_error_stops now n switches w :
  relays_ok w →
  scanChannels 0 n switches = Ok tt →
  getBlindState switches (context w) = Ok ERROR →
  let w' := getPositionState now n switches w in
  currentPositionState (context w') = STOPPED ∧
  timers w' = enqueue (mkTimer (nextTimer w) (now + 1) FinalStop) (timers w) ∧
  commands w' = commands w ∧
  commands (finalStop w') = commands w ++ [registry w'] ∧
  trace w' = trace w ++ [CallbackValue 2].
Proof.
  intros Hok Hscan Hstate. unfold getPositionState. rewrite Hscan, Hstate.
  change (2 <? ERROR)%Z with true. cbv iota.
  destruct (setFinalBlindsState_ok now
              (with_context (set_currentPositionState 2 (context w)) w))
    as [r ->]; [by apply relays_ok_context|].
  cbv zeta.
  split; [reflexivity|]. split; [reflexivity|].
  unfold finalStop. rewrite !commands_emit.
  cbn [context emit with_context arm with_registry registry trace commands
       set_currentPositionState set_lastPosition].
  rewrite !app_nil_r. split; [reflexivity|]. split; [|reflexivity].
  unfold commands. cbn [trace with_context emit arm with_registry].
  rewrite !omap_app. simpl. by rewrite app_nil_r.
Qed.

(** ** From the command to the start timer *)

(** C3.  The completion poll cannot reach the stop routine.  A target set
    at rest arms the start timer and leaves the blind in the moving state,
    short of its target.  The start timer is a plain [function]: run by the
    timer it throws at [this.apiClient] before the relay command is sent,
    the poll is armed or the host is called back, so the run ends with an
    uncaught exception and the blind never settles.  The body of the poll
    is a plain [function] as well: whenever the target instant has come it
    throws at [this.setFinalBlindsState], where with the platform as [this]
    it would call the stop routine.  The stop routine itself, called as a
    method, does what the description says: the state is Stopped at once
    and, after its delayed part, the last position is the target. *)
Theorem completion_poll_cannot_settle now pos w :
  currentPositionState (context w) = STOPPED → relays_ok w → timers w = [] →
  ¬ lastPosition (context w) == pos →
  ∃ w1 x,
    setTargetPosition now pos w = Ok w1 ∧
    timers w1 = [x] ∧ task x = StartMove ∧ due x = (now + 1)%Z ∧
    (∃ msg, fire x (with_timers [] w1) = Throw msg) ∧
    (∀ fuel upto, (now + 1 ≤ upto)%Z →
       ∃ msg, run_until (S fuel) upto w1 = Throw msg) ∧
    currentPositionState (context w1) ≠ STOPPED ∧
    currentTargetPosition (context w1) = pos ∧
    lastPosition (context w1) = lastPosition (context w) ∧
    commands w1 = commands w ∧
    (∀ y t w2, targetTimestamp (context w2) <= inject_Z t →
       (∃ msg, poll TheTimeout y t w2 = Throw msg) ∧
       poll ThePlatform y t w2 = setFinalBlindsState t w2) ∧
    (∀ t w2, relays_ok w2 →
       ∃ w3,
         setFinalBlindsState t w2 = Ok w3 ∧
         currentPositionState (context w3) = STOPPED ∧
         timers w3 = enqueue (mkTimer (nextTimer w2) (t + 1) FinalStop) (timers w2) ∧
         let w4 := finalStop w3 in
         lastPosition (context w4) = currentTargetPosition (context w4) ∧
         currentTargetPosition (context w4) = currentTargetPosition (context w2) ∧
         currentPositionState (context w4) = STOPPED).
Proof.
  intros Hs Hok Htimers Hne.
  destruct (setTargetPosition_from_rest now pos w Hs Hok Hne) as (r & Hr & _).
  eexists _, (mkTimer (nextTimer w) (now + 1) StartMove).
  split; [exact Hr|].
  split; [cbn [arm timers with_registry emit with_context]; by rewrite Htimers|].
  split; [reflexivity|]. split; [reflexivity|].
  split; [by eexists|].
  split.
  { intros fuel upto Hupto. cbn [run_until arm timers with_registry emit with_context].
    rewrite Htimers. cbn [enqueue due].
    rewrite (proj2 (Z.leb_le _ _)) by lia. by eexists. }
  split.
  { cbn [arm with_registry emit with_context context currentPositionState
         set_currentPositionState].
    destruct (Qlt_bool (lastPosition (context w)) pos); discriminate. }
  split; [reflexivity|]. split; [reflexivity|].
  split.
  { unfold commands. cbn [arm with_registry emit with_context trace].
    rewrite omap_app. simpl. by rewrite app_nil_r. }
  split.
  { intros y t w2 Hdue. unfold poll.
    rewrite (proj2 (Qle_bool_iff _ _) Hdue). split; [by eexists|reflexivity]. }
  intros t w2 Hok2.
  destruct (setFinalBlindsState_ok t w2 Hok2) as [r2 ->].
  eexists. split; [reflexivity|]. simpl. done.
Qed.

Lemma completion_poll_cannot_settle_witness :
  ∃ w1 msg,
    setTargetPosition 1000 50 (Samples.closed Samples.plain) = Ok w1 ∧
    run_until 10 20000 w1 = Throw msg ∧
    currentPositionState (context w1) = MOVING_UP ∧
    commands w1 = [].
Proof.
  destruct (completion_poll_cannot_settle 1000 50 (Samples.closed Samples.plain))
    as (w1 & x & Hrun & _ & _ & _ & _ & Hloop & _ & _ & _ & Hcmd & _).
  - reflexivity.
  - split; eexists; reflexivity.
  - reflexivity.
  - intros H. vm_compute in H. discriminate.
  - destruct (Hloop 9%nat 20000%Z) as [msg Hmsg]; [lia|].
    exists w1, msg. split; [exact Hrun|]. split; [exact Hmsg|].
    split; [|exact Hcmd].
    vm_compute in Hrun. injection Hrun as <-. reflexivity.
Defined.

(** ** Runs of the sample blind *)

(** From 0 to 50: the run ends at the start timer, with no relay command
    sent and the blind left in the moving state. *)
Example move_never_starts :
  ∃ w1 msg,
    setTargetPosition 1000 50 (Samples.closed Samples.plain) = Ok w1 ∧
    run_until 100 20000 w1 = Throw msg ∧
    commands w1 = [] ∧
    registry w1 = Samples.relays "on" "off" ∧
    lastPosition (context w1) == 0 ∧
    currentTargetPosition (context w1) == 50.
Proof.
  eexists _, _. split; [vm_compute; reflexivity|]. repeat split.
Qed.

(** Both relays are found on when the host reads the position state of a
    blind at rest: one command switches them off. *)
Example error_read_at_rest :
  ∃ w',
    run_until 10 100
      (getPositionState 5 4 (Samples.relays "on" "on")
         (Samples.fresh Samples.plain)) = Ok w' ∧
    commands w' = [Samples.relays "off" "off"] ∧
    currentPositionState (context w') = STOPPED ∧
    timers w' = [].
Proof.
  eexists. split; [vm_compute; reflexivity|]. repeat split.
Qed.

End BlindsFacts.

(* ===================================================================== *)
(** * More about the expiring cache *)
(* ===================================================================== *)

Section CacheHistories.
Context {T : Type}.
Import Cache CacheOps.
Implicit Types (c : Cache.t T) (k : string) (l : list Timeout).

Lemma filter_absorb {A} (P Q : A → Prop) `{∀ x, Decision (P x)}
    `{∀ x, Decision (Q x)} (l : list A) :
  (∀ x, x ∈ l → P x → Q x) → filter P (filter Q l) = filter P l.
Proof.
  induction l as [|x l IH]; intros Himp; [done|].
  assert (filter P (filter Q l) = filter P l) as IH'
    by (apply IH; intros y Hy; apply Himp; by right).
  destruct (decide (P x)) as [HP|HP].
  - rewrite (filter_cons_True Q) by (apply Himp; [left|done]).
    rewrite !(filter_cons_True P) by done. by rewrite IH'.
  - rewrite (filter_cons_False P) by done.
    destruct (decide (Q x)).
    + rewrite (filter_cons_True Q), (filter_cons_False P) by done. exact IH'.
    + rewrite (filter_cons_False Q) by done. exact IH'.
Qed.

Lemma NoDup_fmap_filter {A B} (f : A → B) (P : A → Prop)
    `{∀ x, Decision (P x)} (l : list A) :
  NoDup (f <$> l) → NoDup (f <$> filter P l).
Proof.
  induction l as [|x l IH]; [done|]. rewrite fmap_cons, NoDup_cons.
  intros [Hx Hnd]. destruct (decide (P x)).
  - rewrite filter_cons_True by done. rewrite fmap_cons, NoDup_cons.
    split; [|by apply IH]. intros Hin. apply Hx.
    apply list_elem_of_fmap in Hin as (y & -> & Hy).
    apply list_elem_of_filter in Hy as [_ Hy].
    apply list_elem_of_fmap. eauto.
  - rewrite filter_cons_False by done. by apply IH.
Qed.

Lemma short_filter {A B} (f : A → B) (P : A → Prop) `{∀ x, Decision (P x)}
    (a : B) (l : list A) :
  NoDup (f <$> l) → (∀ x, x ∈ l → P x → f x = a) →
  (length (filter P l) ≤ 1)%nat.
Proof.
  induction l as [|x l IH]; [simpl; lia|]. rewrite fmap_cons, NoDup_cons.
  intros [Hx Hnd] Ha. destruct (decide (P x)) as [HP|HP].
  - rewrite filter_cons_True by done.
    assert (filter P l = []) as ->; [|simpl; lia].
    destruct (filter P l) as [|y r] eqn:E; [done|].
    assert (y ∈ filter P l) as Hy by (rewrite E; left).
    apply list_elem_of_filter in Hy as [HPy Hy].
    exfalso. apply Hx. apply list_elem_of_fmap. exists y. split; [|done].
    rewrite (Ha x), (Ha y); [done|by right|done|left|done].
  - rewrite filter_cons_False by done. apply IH; [done|].
    intros y Hy. apply Ha. by right.
Qed.

Lemma perm_short {A} (l l' : list A) :
  l ≡ₚ l' → (length l ≤ 1)%nat → l = l'.
Proof.
  intros Hp Hlen. destruct l as [|x [|y l]]; simpl in Hlen; [| |lia].
  - by apply Permutation_nil_l in Hp.
  - by apply Permutation_singleton_l in Hp.
Qed.

Lemma clearTimer_fields k c :
  cacheMap (_clearTimer k c) = cacheMap c ∧
  timerMap (_clearTimer k c) = timerMap c ∧
  nextTimer (_clearTimer k c) = nextTimer c ∧
  emitted (_clearTimer k c) = emitted c ∧
  defaultCacheDuration (_clearTimer k c) = defaultCacheDuration c.
Proof. unfold _clearTimer. by destruct (timerMap c !! k). Qed.

Lemma clearTimer_pending_sub k c x :
  x ∈ pending (_clearTimer k c) → x ∈ pending c.
Proof.
  unfold _clearTimer. destruct (timerMap c !! k); [|done].
  simpl. intros Hx. by apply list_elem_of_filter in Hx as [_ Hx].
Qed.

Lemma clearTimer_NoDup k c :
  NoDup (timerId <$> pending c) → NoDup (timerId <$> pending (_clearTimer k c)).
Proof.
  unfold _clearTimer. destruct (timerMap c !! k); [|done].
  simpl. apply NoDup_fmap_filter.
Qed.

Lemma run_nextTimer l c : nextTimer (run l c) = nextTimer c.
Proof. revert c. induction l as [|x l IH]; intros c; simpl; [done|]. by rewrite IH. Qed.

Lemma inv_create d : inv (create (T:=T) d).
Proof.
  split; [apply wf_create|]. split; [constructor|].
  split; [intros x Hx; by apply elem_of_nil in Hx|].
  split; intros *; simpl; by rewrite lookup_empty.
Qed.

Lemma inv_clearTimer k c : inv c → inv (_clearTimer k c).
Proof.
  intros (Hwf & Hnd & Hlt & Hmap & Hinj).
  destruct (clearTimer_fields k c) as (_ & Htm & Hnext & _).
  split; [by apply wf_clearTimer|]. split; [by apply clearTimer_NoDup|].
  rewrite Htm, Hnext. split; [|done].
  intros x Hx. apply Hlt. by eapply clearTimer_pending_sub.
Qed.

Lemma inv_set now k (v : T) ttl c : inv c → inv (set now k v ttl c).
Proof.
  intros Hinv. pose proof (inv_clearTimer k c Hinv) as (Hwf & Hnd & Hlt & Hmap & Hinj).
  destruct Hinv as (Hwf0 & _).
  split; [by apply wf_set|]. unfold set; simpl.
  split; [|split; [|split]].
  - rewrite fmap_app. apply NoDup_app. split; [done|]. split; [|apply NoDup_singleton].
    intros id Hin Hnew. simpl in Hnew. apply list_elem_of_singleton in Hnew as ->.
    apply list_elem_of_fmap in Hin as (x & Hid & Hx). apply Hlt in Hx. lia.
  - intros x Hx. apply elem_of_app in Hx as [Hx|Hx].
    + apply Hlt in Hx. lia.
    + apply list_elem_of_singleton in Hx as ->. simpl. lia.
  - intros k0 id. destruct (decide (k = k0)) as [->|Hne].
    + rewrite lookup_insert_eq. intros [= <-]. lia.
    + rewrite lookup_insert_ne by done. intros H. apply Hmap in H. lia.
  - intros k1 k2 id.
    destruct (decide (k = k1)) as [E1|Hne1]; destruct (decide (k = k2)) as [E2|Hne2].
    + intros _ _. congruence.
    + subst k1. rewrite lookup_insert_eq, lookup_insert_ne by done.
      intros [= <-] H. apply Hmap in H. lia.
    + subst k2. rewrite lookup_insert_eq, lookup_insert_ne by done.
      intros H [= <-]. apply Hmap in H. lia.
    + rewrite !lookup_insert_ne by done. apply Hinj.
Qed.

Lemma inv_delete k c : inv c → inv (delete k c).
Proof.
  intros (Hwf & Hnd & Hlt & Hmap & Hinj). unfold delete.
  apply inv_clearTimer. by split.
Qed.

Lemma inv_advance upto c : inv c → inv (advance upto c).
Proof.
  intros (Hwf & Hnd & Hlt & Hmap & Hinj).
  split; [by apply wf_advance|]. unfold advance.
  rewrite run_pending, run_timerMap, run_nextTimer. simpl.
  split; [by apply NoDup_fmap_filter|]. split; [|done].
  intros x Hx. apply list_elem_of_filter in Hx as [_ Hx]. by apply Hlt.
Qed.

Lemma inv_exec o c : inv c → inv (exec o c).
Proof.
  destruct o; simpl; [apply inv_set|apply inv_set|apply inv_delete|apply inv_advance].
Qed.

Lemma inv_one_timer k c :
  inv c → (length (filter (λ x, timerKey x = k) (pending c)) ≤ 1)%nat.
Proof.
  intros (Hwf & Hnd & _).
  destruct (timerMap c !! k) as [id|] eqn:Hid.
  - apply (short_filter timerId _ id); [done|].
    intros x Hx Hk. apply Hwf in Hx. rewrite Hk, Hid in Hx. congruence.
  - rewrite filter_none; [simpl; lia|].
    intros x Hx Hk. apply Hwf in Hx. rewrite Hk, Hid in Hx. congruence.
Qed.

(** X1.  After [set(k, v, ttl)] with a duration between 1 and
    [TIMEOUT_MAX] milliseconds the cache answers [v] for [k] as long as
    the duration has not elapsed, whatever other timers fire meanwhile, and
    no expiry event for [k] is emitted; from the instant the duration has
    elapsed it answers nothing and one event has been emitted, at that
    instant. *)
Theorem cache_hit_until_expiry now k (v : T) ttl upto c :
  wf c → (1 ≤ ttl ≤ TIMEOUT_MAX)%Z →
  ((upto < now + ttl)%Z →
     get k (advance upto (set now k v ttl c)) = Some v ∧
     expiry_events k (advance upto (set now k v ttl c)) = expiry_events k c) ∧
  ((now + ttl ≤ upto)%Z →
     get k (advance upto (set now k v ttl c)) = None ∧
     expiry_events k (advance upto (set now k v ttl c)) =
       expiry_events k c ++ [((now + ttl)%Z, k)]).
Proof.
  intros Hwf Hb. pose proof (set_then_advance now k v ttl upto c Hwf Hb) as H.
  unfold obs, get in *. split; intros Hcmp.
  - rewrite decide_False in H by lia. by inversion H.
  - rewrite decide_True in H by lia. by inversion H.
Qed.


(** X3.  In every cache obtained from a new one by any series of [set],
    [delete] and timer firings, timer handles are fresh and every pending
    timer is the one recorded for its key; hence there is at most one pending
    timer per key. *)
Theorem cache_one_timer_per_key (ops : list Op) (d : Z) (k : string) :
  inv (exec_all ops (create (T:=T) d)) ∧
  (length (filter (λ x, timerKey x = k)
             (pending (exec_all ops (create (T:=T) d)))) ≤ 1)%nat.
Proof.
  assert (inv (exec_all ops (create (T:=T) d))) as Hinv.
  { unfold exec_all. generalize (inv_create d). generalize (create (T:=T) d).
    induction ops as [|o ops IH]; intros c Hc; [done|].
    simpl. apply IH. by apply inv_exec. }
  split; [exact Hinv|]. by apply inv_one_timer.
Qed.

Lemma clearTimer_other k k' c :
  inv c → k ≠ k' →
  filter (λ x, timerKey x = k') (pending (_clearTimer k c)) =
  filter (λ x, timerKey x = k') (pending c).
Proof.
  intros (Hwf & _ & _ & _ & Hinj) Hne. unfold _clearTimer.
  destruct (timerMap c !! k) as [old|] eqn:Hold; [|done].
  simpl. apply filter_absorb. intros x Hx Hk Hid.
  apply Hwf in Hx. rewrite Hk, Hid in Hx. apply Hne. by eapply Hinj.
Qed.

Lemma advance_obs_congr k upto c c' :
  inv c → inv c' →
  filter (λ x, timerKey x = k) (pending c) =
    filter (λ x, timerKey x = k) (pending c') →
  obs k c = obs k c' →
  obs k (advance upto c) = obs k (advance upto c').
Proof.
  intros Hc Hc' Hpend Hobs. unfold advance.
  etransitivity; [apply run_filter|].
  symmetry. etransitivity; [apply run_filter|]. symmetry.
  assert (∀ c0, inv c0 →
            filter (λ x, timerKey x = k)
              (sort_timers (filter (λ x, (due x ≤ upto)%Z) (pending c0))) =
            filter (λ x, (due x ≤ upto)%Z)
              (filter (λ x, timerKey x = k) (pending c0))) as Hsort.
  { intros c0 Hc0. apply perm_short.
    - rewrite sort_timers_perm. by rewrite filter_key_due.
    - rewrite sort_timers_perm, filter_key_due.
      etransitivity; [apply length_filter|]. by apply inv_one_timer. }
  rewrite (Hsort c Hc), (Hsort c' Hc'), Hpend.
  apply run_obs_congr. exact Hobs.
Qed.

(** X4.  Setting or deleting one key leaves every other key alone: its
    value, the instant at which it expires and the event emitted then are
    the same as if the call had not been made. *)
Theorem cache_other_keys_untouched now k k' (v : T) ttl upto c :
  inv c → k ≠ k' →
  get k' (advance upto (set now k v ttl c)) = get k' (advance upto c) ∧
  expiry_events k' (advance upto (set now k v ttl c)) =
    expiry_events k' (advance upto c) ∧
  get k' (advance upto (delete k c)) = get k' (advance upto c) ∧
  expiry_events k' (advance upto (delete k c)) =
    expiry_events k' (advance upto c).
Proof.
  intros Hinv Hne.
  assert (obs k' (advance upto (set now k v ttl c)) = obs k' (advance upto c)) as Hset.
  { apply advance_obs_congr; [by apply inv_set|done| |].
    - unfold set; simpl. rewrite filter_app, filter_cons_False, filter_nil by done.
      rewrite app_nil_r. by apply clearTimer_other.
    - unfold obs, set, expiry_events; simpl.
      destruct (clearTimer_fields k c) as (-> & _ & _ & -> & _).
      by rewrite lookup_insert_ne. }
  assert (obs k' (advance upto (delete k c)) = obs k' (advance upto c)) as Hdel.
  { apply advance_obs_congr; [by apply inv_delete|done| |].
    - unfold delete.
      rewrite clearTimer_other; [done| |done].
      destruct Hinv as (Hwf & Hrest). by split.
    - unfold obs, delete, expiry_events.
      destruct (clearTimer_fields k
                  (mk (base.delete k (cacheMap c)) (timerMap c) (pending c)
                     (nextTimer c) (emitted c) (defaultCacheDuration c)))
        as (-> & _ & _ & -> & _).
      simpl. by rewrite lookup_delete_ne. }
  unfold obs, get in *. inversion Hset as [[H1 H2]]. inversion Hdel as [[H3 H4]].
  repeat split; congruence.
Qed.

End CacheHistories.

(* ===================================================================== *)
(** * More about the websocket client *)
(* ===================================================================== *)

Section SessionMore.
Import Js WebSocketClient Session.

Lemma cache_hit_until_expiry_witness :
  Cache.get "a" (Cache.advance 499 (Cache.set 0 "a" 7%nat 500 (Cache.create 500)))
    = Some 7%nat ∧
  Cache.get "a" (Cache.advance 500 (Cache.set 0 "a" 7%nat 500 (Cache.create 500)))
    = None.
Proof.
  assert (1 ≤ 500 ≤ Cache.TIMEOUT_MAX)%Z as Hb by (unfold Cache.TIMEOUT_MAX; lia).
  split.
  - apply (proj1 (cache_hit_until_expiry 0 "a" 7%nat 500 499 (Cache.create 500)
                    (wf_create 500) Hb)). lia.
  - apply (proj2 (cache_hit_until_expiry 0 "a" 7%nat 500 500 (Cache.create 500)
                    (wf_create 500) Hb)). lia.
Defined.


Lemma cache_other_keys_untouched_witness :
  Cache.get "b"
    (Cache.advance 100
       (Cache.set 50 "a" 2%nat 500 (Cache.set 0 "b" 1%nat 500 (Cache.create 500))))
  = Cache.get "b"
      (Cache.advance 100 (Cache.set 0 "b" 1%nat 500 (Cache.create 500))).
Proof.
  apply (cache_other_keys_untouched 50 "a" "b" 2%nat 500 100
           (Cache.set 0 "b" 1%nat 500 (Cache.create 500))).
  - apply inv_set, inv_create.
  - discriminate.
Defined.

(** ** Request ids on fresh payloads *)

Lemma obj_get_fresh k (o : Obj) : k ∉ o.*1 → obj_get k o = None.
Proof.
  induction o as [|[k0 v0] o IH]; simpl; [done|].
  intros Hk. apply not_elem_of_cons in Hk as [Hne Hk].
  destruct (String.eqb_spec k k0); [done|]. by apply IH.
Qed.

(** A new key that is no array index goes last. *)
Lemma obj_set_fresh k v (o : Obj) :
  k ∉ o.*1 → array_index k = None → obj_set k v o = o ++ [(k, v)].
Proof.
  intros Hk Hidx. unfold obj_set. rewrite obj_get_fresh by done. clear Hk.
  induction o as [|[k0 v0] o IH]; simpl; [done|].
  rewrite Hidx. by rewrite IH.
Qed.

Lemma Object_assign_disjoint (target src : Obj) :
  NoDup src.*1 → (∀ k, k ∈ src.*1 → k ∉ target.*1) →
  (∀ k, k ∈ src.*1 → array_index k = None) →
  Object_assign target src = target ++ src.
Proof.
  induction src as [|[k v] src IH] using rev_ind; intros Hnd Hdis Hidx.
  - by rewrite app_nil_r.
  - rewrite Object_assign_snoc. rewrite fmap_app in Hnd, Hdis, Hidx.
    apply NoDup_app in Hnd as (Hnd & Hfresh & _).
    rewrite IH; [|done| |].
    + rewrite obj_set_fresh; [by rewrite app_assoc| |].
      * rewrite fmap_app. intros Hin. apply elem_of_app in Hin as [Hin|Hin].
        -- apply (Hdis k); [apply elem_of_app; right; simpl; left|done].
        -- apply (Hfresh k Hin). simpl. left.
      * apply Hidx. apply elem_of_app. right. simpl. left.
    + intros k0 Hk0. apply Hdis. apply elem_of_app. by left.
    + intros k0 Hk0. apply Hidx. apply elem_of_app. by left.
Qed.

(** X5.  A payload without a [sequence] of its own, none of whose keys is
    an array index, goes out with the request id as its first property and
    everything else as it was, and the id read back from the wire object is
    the id attached. *)
Theorem attachRequestId_fresh (data : Obj) (requestId : string) :
  NoDup data.*1 → "sequence"%string ∉ data.*1 →
  (∀ k, k ∈ data.*1 → array_index k = None) →
  attachRequestId data requestId = ("sequence"%string, JStr requestId) :: data ∧
  extractRequestId (attachRequestId data requestId) = Some (JStr requestId).
Proof.
  intros Hnd Hfresh Hidx.
  assert (attachRequestId data requestId = ("sequence"%string, JStr requestId) :: data) as ->.
  { unfold attachRequestId. rewrite Object_assign_disjoint; [done|done| |done].
    intros k Hk Hin. simpl in Hin. apply list_elem_of_singleton in Hin as ->. done. }
  split; reflexivity.
Qed.

Lemma attachRequestId_fresh_witness :
  attachRequestId [("action"%string, JStr "query")] "42" =
    [("sequence"%string, JStr "42"); ("action"%string, JStr "query")].
Proof.
  apply (attachRequestId_fresh [("action"%string, JStr "query")] "42").
  - apply (bool_decide_unpack _). vm_compute. exact I.
  - apply (bool_decide_unpack _). vm_compute. exact I.
  - intros k Hk. simpl in Hk. apply list_elem_of_singleton in Hk as ->. reflexivity.
Defined.

(** X6.  The requests of [getDeviceStatus] and [updateDeviceStatus] carry
    on the wire the very sequence under which the client waits for the
    answer, and that sequence is the clock reading at which the request was
    sent. *)
Theorem status_requests_are_correlated cfg deviceId params ts nonce now :
  let query := sendRequest (statusPayload cfg deviceId ts nonce) (getSequence now) in
  let update := sendRequest (updatePayload cfg deviceId params ts nonce) (getSequence now) in
  extractRequestId (wire query) = Some (JStr (correlationKey query)) ∧
  extractRequestId (wire update) = Some (JStr (correlationKey update)) ∧
  sequenceValue (correlationKey query) = Some now ∧
  sequenceValue (correlationKey update) = Some now.
Proof.
  intros query update. repeat split; try reflexivity;
    apply sequenceValue_getSequence.
Qed.

(** ** Writes *)



(** ** Reads *)

(** X8.  On a client that has been opened and whose default cache duration
    is between 1 and [TIMEOUT_MAX] milliseconds: after a status query has
    been answered, a further query for the same device resolves from the
    cache, without pause or request, until the default duration has passed
    since the answer; from then on the cache has no entry and the device is
    queried again. *)
Theorem getDeviceStatus_deduplicates cfg env env' deviceId result upto c :
  Cache.wf (deviceStatusMap c) →
  is_Some (instance c) →
  (1 ≤ Cache.defaultCacheDuration (deviceStatusMap c) ≤ Cache.TIMEOUT_MAX)%Z →
  Cache.get deviceId (deviceStatusMap c) = None →
  reply env = Fulfilled result →
  let c1 := (getDeviceStatus cfg env deviceId c).2 in
  let expiry := (replyClock env + Cache.defaultCacheDuration (deviceStatusMap c))%Z in
  ((upto < expiry)%Z →
     getDeviceStatus cfg env' deviceId (tick upto c1) =
       ([Resolve result], tick upto c1)) ∧
  ((expiry ≤ upto)%Z →
     Cache.get deviceId (deviceStatusMap (tick upto c1)) = None ∧
     requests (getDeviceStatus cfg env' deviceId (tick upto c1)).1 ≠ []).
Proof.
  intros Hwf [i Hi] Hb Hmiss Hreply c1 expiry.
  assert (deviceStatusMap c1 =
          Cache.set (replyClock env) deviceId result
            (Cache.defaultCacheDuration (deviceStatusMap c)) (deviceStatusMap c)) as Hc1.
  { unfold c1, getDeviceStatus, instance_sendRequest.
    rewrite Hmiss, Hi, Hreply. reflexivity. }
  assert (instance c1 = Some i) as Hi1.
  { unfold c1, getDeviceStatus, instance_sendRequest.
    rewrite Hmiss, Hi, Hreply. exact Hi. }
  pose proof (set_then_advance (replyClock env) deviceId result
                (Cache.defaultCacheDuration (deviceStatusMap c)) upto
                (deviceStatusMap c) Hwf Hb) as Hobs.
  rewrite <- Hc1 in Hobs. unfold Cache.obs in Hobs. split; intros Hcmp.
  - rewrite decide_False in Hobs by (unfold expiry in Hcmp; lia).
    injection Hobs as Hget _.
    unfold getDeviceStatus, tick, Cache.get. simpl. by rewrite Hget.
  - rewrite decide_True in Hobs by (unfold expiry in Hcmp; lia).
    injection Hobs as Hget _. split; [exact Hget|].
    unfold getDeviceStatus, instance_sendRequest, tick, Cache.get. simpl.
    rewrite Hget, Hi1.
    by destruct (reply env').
Qed.

Lemma getDeviceStatus_deduplicates_witness :
  getDeviceStatus Samples.config (Samples.env (Failure "unused")) "1000abcdef"
    (tick 1849
       (getDeviceStatus Samples.config (Samples.env (Fulfilled Samples.snapshot))
          "1000abcdef" (open "wss://host/api/ws" create)).2)
  = ([Resolve Samples.snapshot],
     tick 1849
       (getDeviceStatus Samples.config (Samples.env (Fulfilled Samples.snapshot))
          "1000abcdef" (open "wss://host/api/ws" create)).2).
Proof.
  assert (1 ≤ 500 ≤ Cache.TIMEOUT_MAX)%Z as Hb by (unfold Cache.TIMEOUT_MAX; lia).
  apply (proj1 (getDeviceStatus_deduplicates Samples.config
                  (Samples.env (Fulfilled Samples.snapshot))
                  (Samples.env (Failure "unused")) "1000abcdef" Samples.snapshot
                  1849 (open "wss://host/api/ws" create) (wf_create 500)
                  (ex_intro _ _ eq_refl) Hb eq_refl eq_refl)).
  simpl. lia.
Defined.

End SessionMore.

Section ReconnectMore.
Import Js WebSocketClient Session.

Lemma handle_keeps_url now s c : url (handle now s c) = url c.
Proof.
  destruct s as [code|code]; simpl.
  - unfold onCloseListener, reconnect.
    by destruct (code =? 1000)%Z, (pendingReconnect c).
  - unfold onErrorListener, reconnect.
    by destruct (String.eqb code "ECONNREFUSED"), (pendingReconnect c).
Qed.

Lemma handle_keeps_interval now s c :
  autoReconnectInterval (handle now s c) = autoReconnectInterval c ∧
  deviceStatusMap (handle now s c) = deviceStatusMap c.
Proof.
  destruct s as [code|code]; simpl.
  - unfold onCloseListener, reconnect.
    by destruct (code =? 1000)%Z, (pendingReconnect c).
  - unfold onErrorListener, reconnect.
    by destruct (String.eqb code "ECONNREFUSED"), (pendingReconnect c).
Qed.

Lemma handle_keeps_instance now s c :
  is_Some (instance c) → is_Some (instance (handle now s c)).
Proof.
  intros [i Hi]. destruct s as [code|code]; simpl.
  - unfold onCloseListener, reconnect.
    destruct (code =? 1000)%Z, (pendingReconnect c); simpl; rewrite Hi; eauto.
  - unfold onErrorListener, reconnect.
    destruct (String.eqb code "ECONNREFUSED"), (pendingReconnect c); simpl;
      rewrite Hi; eauto.
Qed.

(** One abnormal signal and the firing of the timeout it armed. *)
Lemma reconnect_cycle now s u c :
  u ≠ ""%string → url c = Some u →
  pendingReconnect c = false → reconnectTimers c = [] →
  abnormal s = true →
  reconnectTimers (handle now s c) = [(now + autoReconnectInterval c)%Z] ∧
  ∃ c',
    reconnect_timeout (handle now s c) = Ok c' ∧
    url c' = Some u ∧ pendingReconnect c' = false ∧ reconnectTimers c' = [] ∧
    instance c' = Some (mkInstance u true) ∧
    autoReconnectInterval c' = autoReconnectInterval c ∧
    deviceStatusMap c' = deviceStatusMap c.
Proof.
  intros Hu Hurl Hp Ht Hs.
  pose proof (handle_idle now s c Hp) as H. rewrite Hs in H.
  destruct H as [H1 H2]. rewrite Ht in H2. split; [exact H2|].
  unfold reconnect_timeout. rewrite handle_keeps_url, Hurl.
  destruct (String.eqb_spec u ""); [contradiction|].
  eexists. split; [reflexivity|]. simpl. rewrite H2.
  destruct (handle_keeps_interval now s c) as [-> ->]. done.
Qed.

(** X9.  Reconnection is open-ended and evenly paced: however many times
    the connection fails, each failure arms one timeout, due the fixed
    reconnect interval after the failure, and when that timeout fires it
    reopens the remembered URL with fresh listeners and is ready for the
    next failure.  The timeout never throws once [open] has been called with
    a non-empty URL. *)
Theorem reconnect_is_open_ended (sigs : list (Z * Signal)) (u : string) (c : Client) :
  u ≠ ""%string → url c = Some u →
  pendingReconnect c = false → reconnectTimers c = [] →
  Forall (λ ts, abnormal ts.2 = true) sigs →
  (∀ now s, abnormal s = true →
     reconnectTimers (handle now s c) = [(now + autoReconnectInterval c)%Z]) ∧
  ∃ c',
    reconnect_cycles sigs c = Ok c' ∧
    url c' = Some u ∧ pendingReconnect c' = false ∧ reconnectTimers c' = [] ∧
    autoReconnectInterval c' = autoReconnectInterval c ∧
    deviceStatusMap c' = deviceStatusMap c ∧
    (sigs ≠ [] → instance c' = Some (mkInstance u true)).
Proof.
  intros Hu Hurl Hp Ht Hall. split.
  { intros now s Hs. by destruct (reconnect_cycle now s u c Hu Hurl Hp Ht Hs). }
  revert c Hurl Hp Ht.
  induction Hall as [|[now s] sigs Hs Hall IH]; intros c Hurl Hp Ht.
  - exists c. by repeat split.
  - simpl in Hs.
    destruct (reconnect_cycle now s u c Hu Hurl Hp Ht Hs)
      as (_ & c1 & Hrun & Hurl1 & Hp1 & Ht1 & Hi1 & Hint1 & Hmap1).
    destruct (IH c1 Hurl1 Hp1 Ht1) as (c' & Hrun' & Hurl' & Hp' & Ht' & Hint' & Hmap' & Hi').
    exists c'. simpl. rewrite Hrun. simpl.
    split; [exact Hrun'|]. split; [done|]. split; [done|]. split; [done|].
    split; [congruence|]. split; [congruence|].
    intros _. destruct sigs as [|ts sigs'].
    + simpl in Hrun'. by injection Hrun' as <-.
    + by apply Hi'.
Qed.

Lemma reconnect_is_open_ended_witness :
  ∃ c',
    reconnect_cycles
      [(10%Z, Closed 1006); (9000%Z, Failed "ECONNREFUSED"); (20000%Z, Closed 1001)]
      (open "wss://host/api/ws" create) = Ok c' ∧
    reconnectTimers c' = [].
Proof.
  destruct (reconnect_is_open_ended
              [(10%Z, Closed 1006); (9000%Z, Failed "ECONNREFUSED");
               (20000%Z, Closed 1001)]
              "wss://host/api/ws" (open "wss://host/api/ws" create))
    as (_ & c' & Hrun & _ & _ & Ht & _).
  - discriminate.
  - reflexivity.
  - reflexivity.
  - reflexivity.
  - repeat constructor.
  - exists c'. by split.
Defined.

(** X10.  Once [open] has been called the client has a wrapper instance
    for good, through any closes, errors and reconnect requests.  So a
    status query that misses the cache, and a status update, made at any
    later time do hand a request to the wrapper: the exception of an
    undefined instance, which would leave the caller's promise pending, can
    occur only before the first [open]. *)
Theorem opened_client_keeps_instance (u : string) (sigs : list (Z * Signal))
    (c : Client) cfg env deviceId params :
  let c' := handle_all sigs (open u c) in
  is_Some (instance c') ∧
  (Cache.get deviceId (deviceStatusMap c') = None →
   requests (getDeviceStatus cfg env deviceId c').1 ≠ [] ∧
   ∀ err, Uncaught err ∉ (getDeviceStatus cfg env deviceId c').1) ∧
  requests (updateDeviceStatus cfg env deviceId params c').1 ≠ [] ∧
  ∀ err, Uncaught err ∉ (updateDeviceStatus cfg env deviceId params c').1.
Proof.
  intros c'.
  assert (∀ sigs c0, is_Some (instance c0) →
                     is_Some (instance (handle_all sigs c0))) as Hkeep.
  { intros l. induction l as [|[now s] l IH]; intros c0 Hc0; [done|].
    simpl. apply IH. by apply handle_keeps_instance. }
  destruct (Hkeep sigs (open u c)) as [i Hi]; [simpl; eauto|]. fold c' in Hi.
  split; [by eexists|]. split.
  - intros Hmiss. unfold getDeviceStatus, instance_sendRequest.
    rewrite Hmiss, Hi.
    destruct (reply env); simpl; (split; [done|]); intros e Hin;
      repeat (apply elem_of_cons in Hin as [Hin|Hin]; [discriminate|]);
      by apply elem_of_nil in Hin.
  - unfold updateDeviceStatus, instance_sendRequest. rewrite Hi.
    destruct (socketOpen c'), (reply env); simpl; (split; [done|]); intros e Hin;
      repeat (apply elem_of_cons in Hin as [Hin|Hin]; [discriminate|]);
      by apply elem_of_nil in Hin.
Qed.

Lemma opened_client_keeps_instance_witness :
  requests
    (getDeviceStatus Samples.config (Samples.env (Failure "timeout")) "1000abcdef"
       (handle_all [(10%Z, Closed 1006); (20%Z, Failed "ECONNREFUSED")]
          (open "wss://host/api/ws" create))).1 ≠ [].
Proof.
  apply (proj1 (proj2 (opened_client_keeps_instance "wss://host/api/ws"
           [(10%Z, Closed 1006); (20%Z, Failed "ECONNREFUSED")] create
           Samples.config (Samples.env (Failure "timeout")) "1000abcdef" (JObj [])))).
  - reflexivity.
Defined.

End ReconnectMore.

(* ===================================================================== *)
(** * More about the blinds *)
(* ===================================================================== *)

Section BlindsMore.
Import Js Blinds BlindsSteps.
Local Open Scope Q_scope.

(** ** The relay array written and read back *)

Lemma at_index_Some {A} (l : list A) i x :
  at_index l i = Some x → (0 ≤ i)%Z ∧ l !! Z.to_nat i = Some x.
Proof.
  unfold at_index. destruct (Z.ltb_spec i 0) as [Hneg|Hpos]; [done|].
  intros Hx. split; [lia|done].
Qed.

Lemma at_index_insert_eq {A} (l : list A) i x y :
  at_index l i = Some x → at_index (<[Z.to_nat i := y]> l) i = Some y.
Proof.
  unfold at_index. destruct (i <? 0)%Z; [done|]. intros H.
  apply list_lookup_insert_eq. by eapply lookup_lt_Some.
Qed.

Lemma at_index_insert_ne {A} (l : list A) i j y :
  (0 ≤ i)%Z → i ≠ j → at_index (<[Z.to_nat i := y]> l) j = at_index l j.
Proof.
  unfold at_index. intros Hi Hne. destruct (Z.ltb_spec j 0); [done|].
  apply list_lookup_insert_ne. lia.
Qed.

(** What [prepareBlindSwitchesPayload] does to the world when it returns. *)
Lemma prepare_inv w w' :
  prepareBlindSwitchesPayload w = Ok w' →
  ∃ up down s0 s1,
    at_index (registry w) (switchUp (context w)) = Some up ∧
    at_index (<[Z.to_nat (switchUp (context w)) := mkSwitch s0 (outlet up)]> (registry w))
      (switchDown (context w)) = Some down ∧
    w' = with_registry
           (<[Z.to_nat (switchDown (context w)) := mkSwitch s1 (outlet down)]>
              (<[Z.to_nat (switchUp (context w)) := mkSwitch s0 (outlet up)]>
                 (registry w))) w ∧
    (s0, s1) =
      (if (currentPositionState (context w) =? 2)%Z then ("off", "off")
       else if (currentPositionState (context w) =? 1)%Z then ("off", "on")
       else if (currentPositionState (context w) =? 0)%Z then ("on", "off")
       else ("off", "off"))%string.
Proof.
  unfold prepareBlindSwitchesPayload.
  destruct (if (currentPositionState (context w) =? 2)%Z then _ else _)
    as [s0 s1] eqn:Hs.
  unfold write_switch at 1.
  destruct (at_index (registry w) (switchUp (context w))) as [up|] eqn:Hu;
    [|discriminate].
  simpl bind. unfold write_switch.
  destruct (at_index _ (switchDown (context w))) as [down|] eqn:Hd;
    [|discriminate].
  simpl bind. intros [= <-]. exists up, down, s0, s1. done.
Qed.

Lemma prepare_reads_back (w : World) :
  relays_ok w → switchUp (context w) ≠ switchDown (context w) →
  ∃ w',
    prepareBlindSwitchesPayload w = Ok w' ∧
    context w' = context w ∧ timers w' = timers w ∧ trace w' = trace w ∧
    getBlindState (registry w') (context w') =
      Ok (if (currentPositionState (context w) =? 0)%Z then MOVING_UP
          else if (currentPositionState (context w) =? 1)%Z then MOVING_DOWN
          else STOPPED) ∧
    getBlindState (registry w') (context w') ≠ Ok ERROR.
Proof.
  intros Hok Hne. destruct (prepare_ok w Hok) as (r & Hr & _).
  destruct (prepare_inv w _ Hr) as (up & down & s0 & s1 & Hu & Hd & Hw & Hs).
  exists (with_registry r w). split; [exact Hr|].
  split; [done|]. split; [done|]. split; [done|].
  injection Hw as ->.
  destruct (at_index_Some _ _ _ Hu) as [Hu0 _].
  destruct (at_index_Some _ _ _ Hd) as [Hd0 _].
  assert (getBlindState
            (registry (with_registry
               (<[Z.to_nat (switchDown (context w)) := mkSwitch s1 (outlet down)]>
                  (<[Z.to_nat (switchUp (context w)) := mkSwitch s0 (outlet up)]>
                     (registry w))) w))
            (context w) =
          Ok (MAPPING ((if String.eqb s0 "on" then 1 else 0) * 2 +
                       (if String.eqb s1 "on" then 1 else 0))%Z)) as Hget.
  { unfold getBlindState. cbn [registry with_registry context].
    rewrite at_index_insert_ne by (done || congruence).
    rewrite (at_index_insert_eq _ _ up) by done.
    rewrite (at_index_insert_eq _ _ down) by done.
    reflexivity. }
  cbn [context with_registry] in *. rewrite Hget.
  destruct (currentPositionState (context w) =? 2)%Z eqn:E2;
    [apply Z.eqb_eq in E2; rewrite E2|];
    [injection Hs as -> ->; split; [reflexivity|discriminate]|].
  destruct (currentPositionState (context w) =? 1)%Z eqn:E1;
    [apply Z.eqb_eq in E1; rewrite E1|];
    [injection Hs as -> ->; split; [reflexivity|discriminate]|].
  destruct (currentPositionState (context w) =? 0)%Z eqn:E0;
    injection Hs as -> ->; split; (reflexivity || discriminate).
Qed.

(** X11.  The relay array written by [prepareBlindSwitchesPayload] reads
    back through [getBlindState] as the position state it was written for:
    Moving up, Moving down or Stopped (any other state value is written as
    Stopped).  The state Error, both relays on, is never written.  This
    needs the two relays of the blind to be different ones. *)
Theorem payload_reads_back_as_state (w : World) :
  relays_ok w → switchUp (context w) ≠ switchDown (context w) →
  ∃ w',
    prepareBlindSwitchesPayload w = Ok w' ∧
    context w' = context w ∧ timers w' = timers w ∧ trace w' = trace w ∧
    getBlindState (registry w') (context w') =
      Ok (if (currentPositionState (context w) =? 0)%Z then MOVING_UP
          else if (currentPositionState (context w) =? 1)%Z then MOVING_DOWN
          else STOPPED) ∧
    getBlindState (registry w') (context w') ≠ Ok ERROR.
Proof. apply prepare_reads_back. Qed.

Lemma payload_reads_back_as_state_witness :
  ∃ w',
    prepareBlindSwitchesPayload Samples.moving = Ok w' ∧
    getBlindState (registry w') (context w') = Ok MOVING_UP.
Proof.
  destruct (payload_reads_back_as_state Samples.moving)
    as (w' & Hrun & _ & _ & _ & Hget & _).
  - split; eexists; reflexivity.
  - discriminate.
  - exists w'. split; [exact Hrun|exact Hget].
Defined.

(** X12.  [prepareBlindSwitchesPayload] changes nothing but the [switch]
    field of the two relays of the blind: the array keeps its length, every
    entry keeps its outlet number, and the entries of the other relays are
    what they were. *)
Theorem payload_touches_two_relays (w w' : World) :
  prepareBlindSwitchesPayload w = Ok w' →
  length (registry w') = length (registry w) ∧
  outlet <$> registry w' = outlet <$> registry w ∧
  (∀ i, i ≠ switchUp (context w) → i ≠ switchDown (context w) →
        at_index (registry w') i = at_index (registry w) i).
Proof.
  intros Hr.
  destruct (prepare_inv w _ Hr) as (up & down & s0 & s1 & Hu & Hd & -> & _).
  destruct (at_index_Some _ _ _ Hu) as [Hu0 Hu1].
  destruct (at_index_Some _ _ _ Hd) as [Hd0 Hd1].
  cbn [registry with_registry]. split; [by rewrite !length_insert|]. split.
  - rewrite !list_fmap_insert. cbn [outlet].
    rewrite (list_insert_id (outlet <$> registry w) (Z.to_nat (switchUp (context w)))).
    + apply list_insert_id. rewrite list_lookup_fmap.
      destruct (decide (Z.to_nat (switchUp (context w)) =
                        Z.to_nat (switchDown (context w)))) as [E|E].
      * rewrite <- E in Hd1. rewrite list_lookup_insert_eq in Hd1
          by (by eapply lookup_lt_Some).
        injection Hd1 as <-. rewrite <- E, Hu1. reflexivity.
      * rewrite list_lookup_insert_ne in Hd1 by done. by rewrite Hd1.
    + by rewrite list_lookup_fmap, Hu1.
  - intros i Hiu Hid. by rewrite !at_index_insert_ne by done.
Qed.

Lemma payload_touches_two_relays_witness :
  ∃ w',
    prepareBlindSwitchesPayload Samples.moving = Ok w' ∧
    at_index (registry w') 3 = at_index (registry Samples.moving) 3.
Proof.
  eexists. split; [reflexivity|].
  apply (payload_touches_two_relays Samples.moving); [reflexivity| |]; discriminate.
Defined.

(** ** A new target while moving: no change, or back *)

Lemma setTargetPosition_same_target now pos w :
  currentPositionState (context w) ≠ STOPPED →
  pos == currentTargetPosition (context w) →
  setTargetPosition now pos w = Ok (emit Callback w).
Proof.
  intros Hs Heq. unfold setTargetPosition.
  assert ((currentPositionState (context w) =? 2)%Z = false) as ->
    by (by apply Z.eqb_neq).
  simpl negb. cbv iota.
  assert (Qeq_bool (Qabs (pos - currentTargetPosition (context w))) 0 = true) as ->;
    [|done].
  apply Qeq_bool_iff.
  assert (pos - currentTargetPosition (context w) == 0) as -> by lra.
  reflexivity.
Qed.

Lemma setTargetPosition_at_target now pos w :
  currentPositionState (context w) = STOPPED →
  lastPosition (context w) == pos →
  setTargetPosition now pos w = Ok (emit Callback w).
Proof.
  intros Hs Heq. unfold setTargetPosition. rewrite Hs.
  simpl negb. cbv iota. by rewrite (proj2 (Qeq_bool_iff _ _) Heq).
Qed.

(** X13.  A target that is already held changes nothing: at rest at that
    position, or while moving towards it, [setTargetPosition] only calls
    back.  In particular a target set twice in a row starts one move: the
    second call arms no timer, sends nothing and leaves the target instant
    alone. *)
Theorem setTargetPosition_repeated now now' pos w :
  currentPositionState (context w) = STOPPED → relays_ok w →
  ¬ lastPosition (context w) == pos →
  ∃ w1,
    setTargetPosition now pos w = Ok w1 ∧
    setTargetPosition now' pos w1 = Ok (emit Callback w1) ∧
    (∀ w0, currentPositionState (context w0) = STOPPED →
           lastPosition (context w0) == pos →
           setTargetPosition now pos w0 = Ok (emit Callback w0)).
Proof.
  intros Hs Hok Hne.
  destruct (setTargetPosition_from_rest now pos w Hs Hok Hne) as (r & Hr & _).
  eexists. split; [exact Hr|]. split.
  - apply setTargetPosition_same_target.
    + cbn [context arm with_registry emit with_context currentPositionState
           set_currentPositionState].
      by destruct (Qlt_bool (lastPosition (context w)) pos).
    + reflexivity.
  - intros w0. apply setTargetPosition_at_target.
Qed.

Lemma setTargetPosition_repeated_witness :
  ∃ w1,
    setTargetPosition 1000 50 (Samples.closed Samples.plain) = Ok w1 ∧
    setTargetPosition 1200 50 w1 = Ok (emit Callback w1).
Proof.
  destruct (setTargetPosition_repeated 1000 1200 50 (Samples.closed Samples.plain))
    as (w1 & H1 & H2 & _).
  - reflexivity.
  - split; eexists; reflexivity.
  - intros H. vm_compute in H. discriminate.
  - exists w1. by split.
Defined.


(** ** The callback of the host *)







(** ** What the host is told on a read *)

Lemma MAPPING_range sum : (0 ≤ MAPPING sum ≤ 3)%Z.
Proof.
  unfold MAPPING. destruct (sum =? 0)%Z, (sum =? 1)%Z, (sum =? 2)%Z; lia.
Qed.

Lemma scanChannels_spec rest : ∀ i n,
  scanChannels i n rest = Ok tt ↔ (i ≤ n ≤ i + Z.of_nat (length rest))%Z.
Proof.
  induction rest as [|s rest IH]; intros i n; simpl.
  - destruct (Z.eqb_spec i n); split; (done || lia).
  - destruct (Z.eqb_spec i n) as [->|Hne].
    + split; [lia|done].
    + rewrite IH. lia.
Qed.

Lemma prepare_trace w w' :
  prepareBlindSwitchesPayload w = Ok w' →
  context w' = context w ∧ trace w' = trace w ∧ timers w' = timers w ∧
  nextTimer w' = nextTimer w.
Proof.
  unfold prepareBlindSwitchesPayload.
  destruct (if (currentPositionState (context w) =? 2)%Z then _ else _)
    as [s0 s1].
  destruct (write_switch _ s0 _) as [r|]; [|discriminate]. simpl bind.
  destruct (write_switch _ s1 _) as [r'|]; [|discriminate]. simpl bind.
  by intros [= <-].
Qed.

Lemma prepare_leftover_trace w :
  trace (prepare_leftover w) = trace w ∧ context (prepare_leftover w) = context w.
Proof. unfold prepare_leftover. by destruct (write_switch _ _ _). Qed.

(** X17.  A read of the position state answers the host exactly once,
    with Moving up, Moving down or Stopped or with an error, and never with
    the value Error: the reading of both relays on is reported as Stopped,
    the state is set to Stopped and the stop routine is started; any other
    reading is reported as it is and changes nothing else.  The answer is an
    error when the relay array received is shorter than the channel count
    of the device (the loop over the channels runs past its end) or lacks a
    relay of the blind. *)
Theorem getPositionState_never_reports_error now n switches w :
  let w' := getPositionState now n switches w in
  (∃ e, trace w' = trace w ++ [e] ∧
        ((∃ v, e = CallbackValue v ∧ (0 ≤ v ≤ 2)%Z) ∨ (∃ err, e = CallbackError err))) ∧
  ((0 ≤ n ≤ Z.of_nat (length switches))%Z → relays_ok w →
   ∀ state, getBlindState switches (context w) = Ok state →
     (state = ERROR →
        trace w' = trace w ++ [CallbackValue STOPPED] ∧
        currentPositionState (context w') = STOPPED ∧
        timers w' = enqueue (mkTimer (nextTimer w) (now + 1) FinalStop) (timers w)) ∧
     (state ≠ ERROR → w' = emit (CallbackValue state) w)) ∧
  (¬ (0 ≤ n ≤ Z.of_nat (length switches))%Z →
   ∃ err, w' = emit (CallbackError err) w).
Proof.
  intros w'. unfold w', getPositionState.
  pose proof (scanChannels_spec switches 0 n) as Hscan.
  split; [|split].
  - destruct (scanChannels 0 n switches) as [[]|err]; [|eexists; split; [reflexivity|eauto]].
    destruct (getBlindState switches (context w)) as [state|err] eqn:Hstate;
      [|eexists; split; [reflexivity|eauto]].
    pose proof Hstate as Hrange. unfold getBlindState in Hrange.
    destruct (at_index switches (switchUp (context w))); [|discriminate].
    destruct (at_index switches (switchDown (context w))); [|discriminate].
    injection Hrange as Hrange.
    pose proof (MAPPING_range
      ((if String.eqb (switch s) "on" then 1 else 0) * 2 +
       (if String.eqb (switch s0) "on" then 1 else 0))) as Hb.
    rewrite Hrange in Hb.
    destruct (Z.ltb_spec 2 state) as [Hgt|Hle].
    + cbv zeta.
      destruct (setFinalBlindsState now _) as [w1|err] eqn:Hfin.
      * unfold setFinalBlindsState in Hfin.
        destruct (prepareBlindSwitchesPayload _) as [w2|] eqn:Hp; [|discriminate].
        destruct (prepare_trace _ _ Hp) as (_ & Htr & _).
        simpl in Hfin. injection Hfin as <-.
        eexists. split; [cbn [emit trace arm]; rewrite Htr; reflexivity|].
        left. exists 2%Z. split; [done|lia].
      * eexists. split; [|right; eauto].
        cbn [emit trace].
        by rewrite (proj1 (prepare_leftover_trace _)).
    + eexists. split; [reflexivity|]. left. exists state. split; [done|lia].
  - intros Hn Hok state Hstate.
    rewrite (proj2 Hscan) by lia. rewrite Hstate. split.
    + intros ->. change (2 <? ERROR)%Z with true. cbv iota zeta.
      destruct (setFinalBlindsState_ok now
                  (with_context (set_currentPositionState 2 (context w)) w))
        as [r ->]; [by apply relays_ok_context|].
      done.
    + intros Hne.
      pose proof Hstate as Hrange. unfold getBlindState in Hrange.
      destruct (at_index switches (switchUp (context w))); [|discriminate].
      destruct (at_index switches (switchDown (context w))); [|discriminate].
      injection Hrange as Hrange.
      pose proof (MAPPING_range
        ((if String.eqb (switch s) "on" then 1 else 0) * 2 +
         (if String.eqb (switch s0) "on" then 1 else 0))) as Hb.
      rewrite Hrange in Hb.
      destruct (Z.ltb_spec 2 state) as [Hgt|Hle]; [|done].
      exfalso. apply Hne. unfold ERROR. lia.
  - intros Hn. clear Hscan.
    destruct (scanChannels 0 n switches) as [[]|err] eqn:E; [|by eexists].
    exfalso. apply Hn. apply (scanChannels_spec switches 0 n) in E. lia.
Qed.

Lemma getPositionState_never_reports_error_witness :
  trace (getPositionState 5 4 (Samples.relays "on" "on") (Samples.fresh Samples.plain))
    = [CallbackValue STOPPED] ∧
  (∃ err,
     getPositionState 5 4 [mkSwitch "on" 0; mkSwitch "on" 1] (Samples.fresh Samples.plain)
     = emit (CallbackError err) (Samples.fresh Samples.plain)).
Proof.
  split.
  - apply (proj1 (proj2 (getPositionState_never_reports_error 5 4
             (Samples.relays "on" "on") (Samples.fresh Samples.plain)))
             ltac:(simpl; lia) ltac:(split; eexists; reflexivity) ERROR eq_refl).
    reflexivity.
  - apply (proj2 (proj2 (getPositionState_never_reports_error 5 4
             [mkSwitch "on" 0; mkSwitch "on" 1] (Samples.fresh Samples.plain)))).
    simpl. lia.
Defined.

(** ** The position estimate over time *)

Lemma Math_round_le (x y : Q) : x <= y → Math_round x <= Math_round y.
Proof.
  intros H. unfold Math_round. rewrite <- Zle_Qle. apply Qfloor_resp_le. lra.
Qed.

(** X18.  The estimated position does not depend on the clock while the
    blind is at rest.  For a positive per-percent duration of the direction
    it never decreases with time while the blind moves up and never
    increases while it moves down, and at the instant a run starts it is
    the last position rounded. *)
Theorem actualPosition_follows_direction (t1 t2 : Z) (c : Context) :
  (t1 ≤ t2)%Z →
  (currentPositionState c = STOPPED →
     actualPosition t1 c = lastPosition c) ∧
  (currentPositionState c = MOVING_UP → 0 < percentDurationUp c →
     actualPosition t1 c <= actualPosition t2 c ∧
     (startTimestamp c == inject_Z t1 →
        actualPosition t1 c = Math_round (lastPosition c))) ∧
  (currentPositionState c = MOVING_DOWN → 0 < percentDurationDown c →
     actualPosition t2 c <= actualPosition t1 c ∧
     (startTimestamp c == inject_Z t1 →
        actualPosition t1 c = Math_round (lastPosition c))).
Proof.
  intros Hle. rewrite Zle_Qle in Hle. unfold actualPosition.
  split; [by intros ->|]. split.
  - intros -> Hpos. simpl. split.
    + apply Math_round_le.
      apply Qplus_le_r. apply Qmult_le_compat_r; [lra|].
      apply Qlt_le_weak, Qinv_lt_0_compat, Hpos.
    + intros Hstart.
      assert (inject_Z t1 - startTimestamp c == 0) as E by lra.
      apply Math_round_comp; rewrite E; unfold Qdiv; rewrite Qmult_0_l; ring.
  - intros -> Hpos. simpl. split.
    + apply Math_round_le.
      apply Qplus_le_r, Qopp_le_compat. apply Qmult_le_compat_r; [lra|].
      apply Qlt_le_weak, Qinv_lt_0_compat, Hpos.
    + intros Hstart.
      assert (inject_Z t1 - startTimestamp c == 0) as E by lra.
      apply Math_round_comp; rewrite E; unfold Qdiv; rewrite Qmult_0_l; ring.
Qed.

Lemma actualPosition_follows_direction_witness :
  actualPosition 2000 (context Samples.moving) <=
  actualPosition 3000 (context Samples.moving).
Proof.
  apply (actualPosition_follows_direction 2000 3000 (context Samples.moving));
    [lia|reflexivity|reflexivity].
Defined.

End BlindsMore.

(* ===================================================================== *)
(** * Facts about the blind over doubles *)
(* ===================================================================== *)

Section DoubleFacts.
Import Js Double Blinds64.
Local Open Scope float_scope.

Lemma prepare64_ok w :
  relays_ok w →
  ∃ r, prepareBlindSwitchesPayload w = Ok (with_registry r w).
Proof.
  intros [[u Hu] Hd]. unfold prepareBlindSwitchesPayload.
  destruct (if (currentPositionState (context w) =? 2)%Z then _ else _)
    as [switch0 switch1].
  unfold Blinds.write_switch at 1. rewrite Hu. simpl.
  pose proof (at_index_write _ _ (switchDown (context w))
                (Blinds.mkSwitch switch0 (Blinds.outlet u)) _ Hu Hd) as [d Hd'].
  unfold Blinds.write_switch. rewrite Hd'. simpl.
  eexists. reflexivity.
Qed.

Lemma prepare64_inv w w' :
  prepareBlindSwitchesPayload w = Ok w' →
  ∃ up down s0 s1,
    at_index (registry w) (switchUp (context w)) = Some up ∧
    at_index (<[Z.to_nat (switchUp (context w)) :=
                  Blinds.mkSwitch s0 (Blinds.outlet up)]> (registry w))
      (switchDown (context w)) = Some down ∧
    w' = with_registry
           (<[Z.to_nat (switchDown (context w)) :=
                Blinds.mkSwitch s1 (Blinds.outlet down)]>
              (<[Z.to_nat (switchUp (context w)) :=
                   Blinds.mkSwitch s0 (Blinds.outlet up)]>
                 (registry w))) w ∧
    (s0, s1) =
      (if (currentPositionState (context w) =? 2)%Z then ("off", "off")
       else if (currentPositionState (context w) =? 1)%Z then ("off", "on")
       else if (currentPositionState (context w) =? 0)%Z then ("on", "off")
       else ("off", "off"))%string.
Proof.
  unfold prepareBlindSwitchesPayload.
  destruct (if (currentPositionState (context w) =? 2)%Z then _ else _)
    as [s0 s1] eqn:Hs.
  unfold Blinds.write_switch at 1.
  destruct (at_index (registry w) (switchUp (context w))) as [up|] eqn:Hu;
    [|discriminate].
  simpl bind. unfold Blinds.write_switch.
  destruct (at_index _ (switchDown (context w))) as [down|] eqn:Hd;
    [|discriminate].
  simpl bind. intros [= <-]. exists up, down, s0, s1. done.
Qed.

(** The array written reads back as the state it was written for. *)
Lemma prepare64_reads_back (w : World) :
  relays_ok w → switchUp (context w) ≠ switchDown (context w) →
  ∃ r,
    prepareBlindSwitchesPayload w = Ok (with_registry r w) ∧
    getBlindState r (context w) =
      Ok (if (currentPositionState (context w) =? 0)%Z then MOVING_UP
          else if (currentPositionState (context w) =? 1)%Z then MOVING_DOWN
          else STOPPED).
Proof.
  intros Hok Hne. destruct (prepare64_ok w Hok) as (r & Hr).
  destruct (prepare64_inv w _ Hr) as (up & down & s0 & s1 & Hu & Hd & Hw & Hs).
  exists r. split; [exact Hr|].
  injection Hw as ->.
  destruct (at_index_Some _ _ _ Hu) as [Hu0 _].
  destruct (at_index_Some _ _ _ Hd) as [Hd0 _].
  unfold getBlindState.
  rewrite at_index_insert_ne by (done || congruence).
  rewrite (at_index_insert_eq _ _ up) by done.
  rewrite (at_index_insert_eq _ _ down) by done.
  cbn [Blinds.switch].
  destruct (currentPositionState (context w) =? 2)%Z eqn:E2;
    [apply Z.eqb_eq in E2; rewrite E2|];
    [injection Hs as -> ->; reflexivity|].
  destruct (currentPositionState (context w) =? 1)%Z eqn:E1;
    [apply Z.eqb_eq in E1; rewrite E1|];
    [injection Hs as -> ->; reflexivity|].
  destruct (currentPositionState (context w) =? 0)%Z eqn:E0;
    injection Hs as -> ->; reflexivity.
Qed.

(** ** A move that starts from rest *)

(** C2, amended.  At rest and with a target other than the last position,
    [setTargetPosition] sets the target position, the direction, the start
    instant (now) and the target instant: now plus 1000 times the drive
    time.  The drive time is, rounded to hundredths of a second, a sum of up
    to three parts, all in doubles.  The travel part is the distance in
    percent, divided by 100, times the full travel time less the bottom
    margin of the direction.  The margin part is [durationBMU] for a move up
    that leaves position 0 and [durationBMD] for a move down that ends at
    position 0, and absent otherwise.  The overdrive part is [fullOverdrive]
    when the target is 0 or 100, and absent otherwise. *)
Theorem drive_time_from_rest now now' pos w :
  currentPositionState (context w) = STOPPED → relays_ok w →
  (lastPosition (context w) =? pos) = false →
  let c := context w in
  ∃ w' travel margin overdrive,
    setTargetPosition now now' pos w = Ok w' ∧
    currentTargetPosition (context w') = pos ∧
    currentPositionState (context w') =
      (if lastPosition c <? pos then MOVING_UP else MOVING_DOWN) ∧
    startTimestamp (context w') = of_Z now ∧
    targetTimestamp (context w') = of_Z now + duration pos c * 1000 ∧
    duration pos c = round2 (add_opt (add_opt travel margin) overdrive) ∧
    ((lastPosition c <? pos) = true →
       travel = (pos - lastPosition c) / 100 * (durationUp c - durationBMU c) ∧
       margin = if lastPosition c =? 0 then Some (durationBMU c) else None) ∧
    ((lastPosition c <? pos) = false →
       travel = (lastPosition c - pos) / 100 * (durationDown c - durationBMD c) ∧
       margin = if pos =? 0 then Some (durationBMD c) else None) ∧
    overdrive = if (pos =? 0) || (pos =? 100) then Some (fullOverdrive c) else None.
Proof.
  intros Hs Hok Hne c.
  set (up := lastPosition c <? pos).
  set (c' := set_currentPositionState (if up then 0 else 1)%Z
               (set_targetTimestamp (of_Z now + duration pos c * 1000)
                  (set_startTimestamp (of_Z now)
                     (set_currentTargetPosition pos c)))).
  set (w0 := emit (SetCharacteristic Blinds.PositionState
                     (of_Z (if up then 0 else 1)%Z)) (with_context c' w)).
  destruct (prepare64_ok w0) as [r Hr]; [exact Hok|].
  exists (arm Blinds.StartMove (now + 1) (with_registry r w0)),
    (if up
     then (pos - lastPosition c) / 100 * (durationUp c - durationBMU c)
     else (lastPosition c - pos) / 100 * (durationDown c - durationBMD c)),
    (if up
     then (if lastPosition c =? 0 then Some (durationBMU c) else None)
     else (if pos =? 0 then Some (durationBMD c) else None)),
    (if (pos =? 0) || (pos =? 100) then Some (fullOverdrive c) else None).
  split.
  { unfold setTargetPosition. rewrite Hs.
    change (negb (Blinds.STOPPED =? 2)%Z) with false. cbv iota.
    rewrite Hne. fold c. fold up.
    change (duration pos (set_currentTargetPosition pos c)) with (duration pos c).
    fold c'. fold w0. rewrite Hr. reflexivity. }
  split; [reflexivity|]. split.
  { cbn [arm with_registry w0 emit with_context context c'
         currentPositionState set_currentPositionState].
    by destruct up. }
  split; [reflexivity|]. split; [reflexivity|].
  split.
  { unfold duration, round2, add_opt. fold up.
    destruct up, (lastPosition c =? 0), (pos =? 0), (pos =? 100); reflexivity. }
  split; [intros Hup; fold up in Hup; by rewrite Hup|].
  split; [intros Hup; fold up in Hup; by rewrite Hup|].
  reflexivity.
Qed.

(** The blind restored at position 1 with 5.25 seconds of travel, sent to
    87: the drive time is 4.51 seconds (in exact arithmetic the rounding of
    4.515 would give 4.52), and the target instant is 5510. *)
Lemma drive_time_from_rest_witness :
  ∃ w',
    setTargetPosition 1000 1000 87 (Samples64.restored (Some 1) Samples64.quick) = Ok w' ∧
    targetTimestamp (context w') = 5510 ∧
    duration 87 (context (Samples64.restored (Some 1) Samples64.quick)) = 451 / 100.
Proof.
  destruct (drive_time_from_rest 1000 1000 87
              (Samples64.restored (Some 1) Samples64.quick))
    as (w' & travel & margin & overdrive & Hrun & _ & _ & _ & Htarget & _).
  - reflexivity.
  - split; eexists; reflexivity.
  - reflexivity.
  - exists w'. split; [exact Hrun|]. split; [|vm_compute; reflexivity].
    rewrite Htarget. vm_compute. reflexivity.
Defined.

(** ** A new target behind a moving blind *)

(** X14.  A target for which [diff > 0] fails and [diff < 0] holds turns a
    moving blind round at once: the position state flips, the position
    estimated by [actualPosition] (at its own reading of the clock) becomes
    the last position, the new run starts now and lasts the absolute value
    of [diff], and one relay command goes out immediately, which reads back
    as the new direction.  The host is told the new position, target and
    state and is called back; no timer is armed. *)
Theorem reversal_turns_round now now' pos w :
  let c := context w in
  let diffTime :=
    if (currentPositionState c =? 1)%Z
    then Math_round (percentDurationDown c * (currentTargetPosition c - pos))
    else Math_round (percentDurationUp c * (pos - currentTargetPosition c)) in
  let diff := targetTimestamp c - of_Z now + diffTime in
  (currentPositionState c = MOVING_UP ∨ currentPositionState c = MOVING_DOWN) →
  relays_ok w → switchUp c ≠ switchDown c →
  (abs (pos - currentTargetPosition c) =? 0) = false →
  (0 <? diff) = false → (diff <? 0) = true →
  ∃ w',
    setTargetPosition now now' pos w = Ok w' ∧
    currentPositionState (context w') =
      (if (currentPositionState c =? 0)%Z then MOVING_DOWN else MOVING_UP) ∧
    lastPosition (context w') = actualPosition now' c ∧
    currentTargetPosition (context w') = pos ∧
    startTimestamp (context w') = of_Z now ∧
    targetTimestamp (context w') = of_Z now + abs diff ∧
    getBlindState (registry w') (context w') = Ok (currentPositionState (context w')) ∧
    timers w' = timers w ∧
    trace w' =
      trace w ++
        [UpdateDeviceStatus (registry w');
         UpdateValue Blinds.CurrentPosition (actualPosition now' c);
         UpdateValue Blinds.TargetPosition pos;
         UpdateValue Blinds.PositionState (of_Z (currentPositionState (context w')));
         Callback].
Proof.
  intros c diffTime diff Hdir Hok Hrel Hne Hpos Hneg.
  set (c' :=
    set_currentPositionState (if (currentPositionState c =? 0)%Z then 1 else 0)%Z
      (set_currentTargetPosition pos
         (set_lastPosition (actualPosition now' c)
            (set_targetTimestamp (of_Z now + abs diff)
               (set_startTimestamp (of_Z now) c))))).
  destruct (prepare64_reads_back (with_context c' w)) as (r & Hr & Hget);
    [exact Hok|exact Hrel|].
  exists (emit Callback
            (emit (UpdateValue Blinds.PositionState (of_Z (currentPositionState c')))
               (emit (UpdateValue Blinds.TargetPosition pos)
                  (emit (UpdateValue Blinds.CurrentPosition (actualPosition now' c))
                     (emit (UpdateDeviceStatus r)
                        (with_registry r (with_context c' w))))))).
  split.
  { unfold setTargetPosition. fold c.
    assert ((currentPositionState c =? 2)%Z = false) as ->
      by (destruct Hdir as [H|H]; rewrite H; reflexivity).
    simpl negb. cbv iota. rewrite Hne.
    fold diffTime. fold diff. rewrite Hpos, Hneg.
    match goal with
    | |- context [prepareBlindSwitchesPayload ?a] =>
        change (prepareBlindSwitchesPayload a)
          with (prepareBlindSwitchesPayload (with_context c' w))
    end.
    rewrite Hr. reflexivity. }
  split.
  { cbn [context emit with_registry with_context c' currentPositionState
         set_currentPositionState].
    destruct (currentPositionState c =? 0)%Z; reflexivity. }
  split; [reflexivity|]. split; [reflexivity|]. split; [reflexivity|].
  split; [reflexivity|]. split.
  { cbn [context registry emit with_registry with_context] in Hget |- *.
    etransitivity; [exact Hget|].
    cbn [c' currentPositionState set_currentPositionState].
    destruct Hdir as [H|H]; rewrite H; reflexivity. }
  split; [reflexivity|].
  cbn [trace emit with_registry with_context registry context].
  rewrite <- !app_assoc. reflexivity.
Qed.

(** The brisk blind, on its way from 0 to 50 since instant 1000, is sent
    back to 0 at instant 1009: the position estimated then is 0 (9 ms at
    18.000000000000004 ms per percent round down), and the run back lasts
    9 ms. *)
Lemma reversal_turns_round_witness :
  ∃ w',
    setTargetPosition 1009 1009 0 Samples64.moving = Ok w' ∧
    currentPositionState (context w') = MOVING_DOWN ∧
    lastPosition (context w') = 0 ∧
    targetTimestamp (context w') = 1018.
Proof.
  destruct (reversal_turns_round 1009 1009 0 Samples64.moving)
    as (w' & Hrun & Hs & Hlast & _ & _ & Htarget & _).
  - left. reflexivity.
  - split; eexists; reflexivity.
  - discriminate.
  - reflexivity.
  - reflexivity.
  - reflexivity.
  - exists w'. split; [exact Hrun|]. split; [exact Hs|].
    rewrite Hlast, Htarget. split; vm_compute; reflexivity.
Defined.

End DoubleFacts.

(* ===================================================================== *)
(** * Facts about the fan with light *)
(* ===================================================================== *)

Section FanFacts.
Import Js Blinds Fan.
Local Open Scope Q_scope.

Lemma write_switch_ok l i s v :
  at_index l i = Some s →
  write_switch i v l = Ok (<[Z.to_nat i := mkSwitch v (outlet s)]> l).
Proof. intros H. unfold write_switch. by rewrite H. Qed.

Lemma write_switch_inv l i v r :
  write_switch i v l = Ok r →
  ∃ s, at_index l i = Some s ∧ r = <[Z.to_nat i := mkSwitch v (outlet s)]> l.
Proof.
  unfold write_switch. destruct (at_index l i) as [s|]; [|discriminate].
  intros [= <-]. eauto.
Qed.

Lemma read_write_eq l i v r :
  write_switch i v l = Ok r → read r i = Ok v.
Proof.
  intros H. apply write_switch_inv in H as (s & Hs & ->).
  unfold read. by rewrite (at_index_insert_eq _ _ s).
Qed.

Lemma read_write_ne l i j v r :
  write_switch i v l = Ok r → i ≠ j → read r j = read l j.
Proof.
  intros H Hne. apply write_switch_inv in H as (s & Hs & ->).
  destruct (at_index_Some _ _ _ Hs) as [Hi _].
  unfold read. by rewrite at_index_insert_ne.
Qed.

Lemma write_switch_keeps l i j v r :
  write_switch i v l = Ok r → is_Some (at_index l j) → is_Some (at_index r j).
Proof.
  intros H Hj. apply write_switch_inv in H as (s & Hs & ->).
  by eapply at_index_write.
Qed.

(** Three writes in a row, as in each branch of [setFanSpeed]. *)
Lemma write_three l a b c :
  is_Some (at_index l 1) → is_Some (at_index l 2) → is_Some (at_index l 3) →
  ∃ r1 r2 r3,
    write_switch 1 a l = Ok r1 ∧ write_switch 2 b r1 = Ok r2 ∧
    write_switch 3 c r2 = Ok r3 ∧
    read r3 1 = Ok a ∧ read r3 2 = Ok b ∧ read r3 3 = Ok c ∧
    at_index r3 0 = at_index l 0 ∧ length r3 = length l.
Proof.
  intros [s1 H1] H2 H3.
  pose proof (write_switch_ok l 1 s1 a H1) as W1.
  pose proof (write_switch_keeps _ _ 2 _ _ W1 H2) as [s2 H2'].
  pose proof (write_switch_keeps _ _ 3 _ _ W1 H3) as H3'.
  pose proof (write_switch_ok _ 2 s2 b H2') as W2.
  pose proof (write_switch_keeps _ _ 3 _ _ W2 H3') as [s3 H3''].
  pose proof (write_switch_ok _ 3 s3 c H3'') as W3.
  eexists _, _, _. split; [exact W1|]. split; [exact W2|]. split; [exact W3|].
  split.
  { rewrite (read_write_ne _ _ 1 _ _ W3), (read_write_ne _ _ 1 _ _ W2) by done.
    by eapply read_write_eq. }
  split.
  { rewrite (read_write_ne _ _ 2 _ _ W3) by done. by eapply read_write_eq. }
  split; [by eapply read_write_eq|]. split.
  - by rewrite !at_index_insert_ne by done.
  - by rewrite !length_insert.
Qed.

(** X22.  [setFanSpeed] snaps the requested speed to one of the notches 0,
    33, 66 and 100 (never leaving it undefined), writes the three fan relays
    for it, sends that array, and answers the host with the notch, not with
    the requested value; Active is set exactly when the notch is not 0.  The
    relays written read back through [getFanSpeed] as the same notch, and
    through [updateFanSpeedCharacteristic] as the same Active and speed.  The
    light relay and the length of the array are untouched. *)
Theorem fan_speed_reads_back (value : Q) (switches : list Switch) :
  is_Some (at_index switches 1) → is_Some (at_index switches 2) →
  is_Some (at_index switches 3) →
  ∃ r notch s1 s2 s3,
    setFanSpeed value Done switches =
      Ok (r, [Command r; SetActive (negb (Qeq_bool notch 0)); Answer (Some notch)]) ∧
    (notch = 0 ∨ notch = 33 ∨ notch = 66 ∨ notch = 100) ∧
    (notch = 0 ↔ value < 33) ∧
    getFanSpeed r = Ok (Some notch) ∧
    read r 1 = Ok s1 ∧ read r 2 = Ok s2 ∧ read r 3 = Ok s3 ∧
    updateFanSpeedCharacteristic s1 s2 s3 = (negb (Qeq_bool notch 0), notch) ∧
    at_index r 0 = at_index switches 0 ∧
    length r = length switches.
Proof.
  intros H1 H2 H3. unfold setFanSpeed.
  destruct (Qlt_bool value 33) eqn:E1.
  { destruct (write_three switches "off" "off" "off" H1 H2 H3)
      as (r1 & r2 & r3 & -> & W2 & W3 & R1 & R2 & R3 & L0 & Len).
    simpl bind. rewrite W2. simpl bind. rewrite W3. simpl bind. rewrite R1.
    simpl bind. apply Qlt_bool_iff in E1.
    exists r3, 0, "off"%string, "off"%string, "off"%string.
    split; [reflexivity|]. split; [by left|]. split; [done|].
    split; [unfold getFanSpeed; rewrite R1; reflexivity|]. done. }
  apply Qlt_bool_false in E1.
  rewrite (proj2 (Qle_bool_iff 33 value) E1). simpl andb.
  destruct (Qlt_bool value 66) eqn:E2.
  { destruct (write_three switches "on" "off" "off" H1 H2 H3)
      as (r1 & r2 & r3 & -> & W2 & W3 & R1 & R2 & R3 & L0 & Len).
    simpl bind. rewrite W2. simpl bind. rewrite W3. simpl bind. rewrite R1.
    simpl bind.
    exists r3, 33, "on"%string, "off"%string, "off"%string.
    split; [reflexivity|]. split; [by right; left|].
    split; [split; [discriminate|intros H; lra]|].
    split; [unfold getFanSpeed; rewrite R1; simpl; rewrite R2; simpl;
            rewrite R3; reflexivity|]. done. }
  apply Qlt_bool_false in E2.
  rewrite (proj2 (Qle_bool_iff 66 value) E2). simpl andb.
  destruct (Qlt_bool value 99) eqn:E3.
  { destruct (write_three switches "on" "on" "off" H1 H2 H3)
      as (r1 & r2 & r3 & -> & W2 & W3 & R1 & R2 & R3 & L0 & Len).
    simpl bind. rewrite W2. simpl bind. rewrite W3. simpl bind. rewrite R1.
    simpl bind.
    exists r3, 66, "on"%string, "on"%string, "off"%string.
    split; [reflexivity|]. split; [by right; right; left|].
    split; [split; [discriminate|intros H; lra]|].
    split; [unfold getFanSpeed; rewrite R1; simpl; rewrite R2; simpl;
            rewrite R3; reflexivity|]. done. }
  apply Qlt_bool_false in E3.
  rewrite (proj2 (Qle_bool_iff 99 value) E3).
  destruct (write_three switches "on" "off" "on" H1 H2 H3)
    as (r1 & r2 & r3 & -> & W2 & W3 & R1 & R2 & R3 & L0 & Len).
  simpl bind. rewrite W2. simpl bind. rewrite W3. simpl bind. rewrite R1.
  simpl bind.
  exists r3, 100, "on"%string, "off"%string, "on"%string.
  split; [reflexivity|]. split; [by right; right; right|].
  split; [split; [discriminate|intros H; lra]|].
  split; [unfold getFanSpeed; rewrite R1; simpl; rewrite R2; simpl;
          rewrite R3; reflexivity|]. done.
Qed.

Lemma fan_speed_reads_back_witness :
  ∃ r notch,
    setFanSpeed 50 Done (Samples.relays "on" "on") =
      Ok (r, [Command r; SetActive (negb (Qeq_bool notch 0)); Answer (Some notch)]) ∧
    getFanSpeed r = Ok (Some notch).
Proof.
  destruct (fan_speed_reads_back 50 (Samples.relays "on" "on"))
    as (r & notch & s1 & s2 & s3 & Hrun & _ & _ & Hget & _);
    [eexists; reflexivity..|].
  exists r, notch. split; [exact Hrun|exact Hget].
Defined.

Lemma write_switch_same l i v :
  read l i = Ok v → write_switch i v l = Ok l.
Proof.
  unfold read, write_switch. destruct (at_index l i) as [s|] eqn:Hs; [|discriminate].
  intros [= <-]. f_equal. apply list_insert_id.
  destruct (at_index_Some _ _ _ Hs) as [_ ->]. by destruct s.
Qed.

(** The notch chosen by [setFanSpeed] and the relays written for it. *)
Lemma setFanSpeed_notch value switches :
  is_Some (at_index switches 1) → is_Some (at_index switches 2) →
  is_Some (at_index switches 3) →
  ∃ r notch a b c,
    setFanSpeed value Done switches =
      Ok (r, [Command r; SetActive (String.eqb a "on"); Answer (Some notch)]) ∧
    read r 1 = Ok a ∧ read r 2 = Ok b ∧ read r 3 = Ok c ∧
    ((value < 33 ∧ notch = 0 ∧ (a, b, c) = ("off", "off", "off")%string) ∨
     (33 <= value ∧ value < 66 ∧ notch = 33 ∧ (a, b, c) = ("on", "off", "off")%string) ∨
     (66 <= value ∧ value < 99 ∧ notch = 66 ∧ (a, b, c) = ("on", "on", "off")%string) ∨
     (99 <= value ∧ notch = 100 ∧ (a, b, c) = ("on", "off", "on")%string)).
Proof.
  intros H1 H2 H3. unfold setFanSpeed.
  destruct (Qlt_bool value 33) eqn:E1.
  { destruct (write_three switches "off" "off" "off" H1 H2 H3)
      as (r1 & r2 & r3 & -> & W2 & W3 & R1 & R2 & R3 & _).
    simpl bind. rewrite W2. simpl bind. rewrite W3. simpl bind. rewrite R1.
    simpl bind. apply Qlt_bool_iff in E1.
    exists r3, 0, "off"%string, "off"%string, "off"%string.
    split; [reflexivity|]. repeat (split; [done|]). by left. }
  apply Qlt_bool_false in E1.
  rewrite (proj2 (Qle_bool_iff 33 value) E1). simpl andb.
  destruct (Qlt_bool value 66) eqn:E2.
  { destruct (write_three switches "on" "off" "off" H1 H2 H3)
      as (r1 & r2 & r3 & -> & W2 & W3 & R1 & R2 & R3 & _).
    simpl bind. rewrite W2. simpl bind. rewrite W3. simpl bind. rewrite R1.
    simpl bind. apply Qlt_bool_iff in E2.
    exists r3, 33, "on"%string, "off"%string, "off"%string.
    split; [reflexivity|]. repeat (split; [done|]). right. by left. }
  apply Qlt_bool_false in E2.
  rewrite (proj2 (Qle_bool_iff 66 value) E2). simpl andb.
  destruct (Qlt_bool value 99) eqn:E3.
  { destruct (write_three switches "on" "on" "off" H1 H2 H3)
      as (r1 & r2 & r3 & -> & W2 & W3 & R1 & R2 & R3 & _).
    simpl bind. rewrite W2. simpl bind. rewrite W3. simpl bind. rewrite R1.
    simpl bind. apply Qlt_bool_iff in E3.
    exists r3, 66, "on"%string, "on"%string, "off"%string.
    split; [reflexivity|]. repeat (split; [done|]). right. right. by left. }
  apply Qlt_bool_false in E3.
  rewrite (proj2 (Qle_bool_iff 99 value) E3).
  destruct (write_three switches "on" "off" "on" H1 H2 H3)
    as (r1 & r2 & r3 & -> & W2 & W3 & R1 & R2 & R3 & _).
  simpl bind. rewrite W2. simpl bind. rewrite W3. simpl bind. rewrite R1.
  simpl bind.
  exists r3, 100, "on"%string, "off"%string, "on"%string.
  split; [reflexivity|]. repeat (split; [done|]). right. right. by right.
Qed.

(** X23.  The notch is monotone in the requested speed, and it is a fixed
    point: asking for the notch that was answered answers the same notch and
    leaves the relay array as it is. *)
Theorem fan_notch_monotone_and_stable (v1 v2 : Q) (switches : list Switch) :
  is_Some (at_index switches 1) → is_Some (at_index switches 2) →
  is_Some (at_index switches 3) → v1 <= v2 →
  ∃ r1 r2 n1 n2 a1 a2,
    setFanSpeed v1 Done switches =
      Ok (r1, [Command r1; SetActive a1; Answer (Some n1)]) ∧
    setFanSpeed v2 Done switches =
      Ok (r2, [Command r2; SetActive a2; Answer (Some n2)]) ∧
    n1 <= n2 ∧
    setFanSpeed n1 Done r1 =
      Ok (r1, [Command r1; SetActive a1; Answer (Some n1)]).
Proof.
  intros H1 H2 H3 Hle.
  destruct (setFanSpeed_notch v1 switches H1 H2 H3)
    as (r1 & n1 & a & b & c & Hrun1 & R1 & R2 & R3 & Hn1).
  destruct (setFanSpeed_notch v2 switches H1 H2 H3)
    as (r2 & n2 & a' & b' & c' & Hrun2 & _ & _ & _ & Hn2).
  exists r1, r2, n1, n2, (String.eqb a "on"), (String.eqb a' "on").
  split; [exact Hrun1|]. split; [exact Hrun2|]. split.
  { destruct Hn1 as [(? & -> & _)|[(? & ? & -> & _)|[(? & ? & -> & _)|(? & -> & _)]]];
    destruct Hn2 as [(? & -> & _)|[(? & ? & -> & _)|[(? & ? & -> & _)|(? & -> & _)]]];
    lra. }
  assert (∀ (n : Q) x y z,
            read r1 1 = Ok x → read r1 2 = Ok y → read r1 3 = Ok z →
            (r <-- write_switch 1 x r1 ;; r <-- write_switch 2 y r ;;
             r <-- write_switch 3 z r ;; Ok (r, Some n)) = Ok (r1, Some n)) as Hsame.
  { intros n x y z Hx Hy Hz.
    rewrite (write_switch_same _ _ _ Hx). simpl bind.
    rewrite (write_switch_same _ _ _ Hy). simpl bind.
    by rewrite (write_switch_same _ _ _ Hz). }
  unfold setFanSpeed.
  destruct Hn1 as [(? & -> & [= -> -> ->])|[(? & ? & -> & [= -> -> ->])|
                  [(? & ? & -> & [= -> -> ->])|(? & -> & [= -> -> ->])]]];
    cbn [Qlt_bool Qle_bool negb andb]; vm_compute Qlt_bool; vm_compute Qle_bool;
    cbv iota; cbn [andb]; rewrite (Hsame _ _ _ _ R1 R2 R3); simpl bind;
    rewrite R1; reflexivity.
Qed.

Lemma fan_notch_monotone_and_stable_witness :
  ∃ r1 r2 n1 n2 a1 a2,
    setFanSpeed 40 Done (Samples.relays "off" "off") =
      Ok (r1, [Command r1; SetActive a1; Answer (Some n1)]) ∧
    setFanSpeed 70 Done (Samples.relays "off" "off") =
      Ok (r2, [Command r2; SetActive a2; Answer (Some n2)]) ∧
    n1 <= n2.
Proof.
  destruct (fan_notch_monotone_and_stable 40 70 (Samples.relays "off" "off"))
    as (r1 & r2 & n1 & n2 & a1 & a2 & H1 & H2 & H3 & _);
    [eexists; reflexivity..|vm_compute; discriminate|].
  exists r1, r2, n1, n2, a1, a2. by repeat split.
Defined.

Lemma getFanSpeed_reads l l' :
  read l' 1 = read l 1 → read l' 2 = read l 2 → read l' 3 = read l 3 →
  getFanSpeed l' = getFanSpeed l.
Proof. intros E1 E2 E3. unfold getFanSpeed. by rewrite E1, E2, E3. Qed.

Lemma setFanSpeed_frame value outcome l r ev :
  setFanSpeed value outcome l = Ok (r, ev) → read r 0 = read l 0.
Proof.
  unfold setFanSpeed.
  assert (∀ a b c n,
            (written <-- (r <-- write_switch 1 a l ;; r <-- write_switch 2 b r ;;
                          r <-- write_switch 3 c r ;; Ok (r, n)) ;;
             let '(r, setValue) := written in
             match outcome with
             | Done => s1 <-- read r 1 ;;
                       Ok (r, [Command r; SetActive (String.eqb s1 "on");
                               Answer setValue])
             | Failed err => Ok (r, [Command r; AnswerError err])
             end) = Ok (r, ev) → read r 0 = read l 0) as Hbranch.
  { intros a b c n.
    destruct (write_switch 1 a l) as [r1|] eqn:W1; [|discriminate]. simpl bind.
    destruct (write_switch 2 b r1) as [r2|] eqn:W2; [|discriminate]. simpl bind.
    destruct (write_switch 3 c r2) as [r3|] eqn:W3; [|discriminate]. simpl bind.
    assert (read r3 0 = read l 0) as Hr.
    { rewrite (read_write_ne _ _ 0 _ _ W3), (read_write_ne _ _ 0 _ _ W2),
        (read_write_ne _ _ 0 _ _ W1) by done. done. }
    destruct outcome.
    - destruct (read r3 1); [|discriminate]. simpl bind. by intros [= <- _].
    - by intros [= <- _]. }
  destruct (Qlt_bool value 33); [apply Hbranch|].
  destruct (Qle_bool 33 value && Qlt_bool value 66); [apply Hbranch|].
  destruct (Qle_bool 66 value && Qlt_bool value 99); [apply Hbranch|].
  destruct (Qle_bool 99 value); [apply Hbranch|].
  simpl bind. destruct outcome.
  - destruct (read l 1); [|discriminate]. simpl bind. by intros [= <- _].
  - by intros [= <- _].
Qed.

(** X24.  The light and the fan do not disturb each other.  Switching the
    light writes relay 0 only: the fan speed read back is what it was, and
    the light read back (for an accessory with several switches) is the state
    just set.  Setting the fan speed leaves relay 0 alone: the light read
    back is what it was. *)
Theorem fan_and_light_are_independent (switches r : list Switch)
    (ev : list Fan.Event) (outcome : Outcome) (switchesCount channel : Z)
    (single : option string) :
  (1 < switchesCount)%Z →
  (∀ isOn,
     setFanLightState isOn outcome switches = Ok (r, ev) →
     getFanSpeed r = getFanSpeed switches ∧
     processSwitchState switchesCount channel single r (Some 0%Z) =
       Ok (true, Answer (Some (if isOn then 1 else 0)))) ∧
  (∀ value,
     setFanSpeed value outcome switches = Ok (r, ev) →
     processSwitchState switchesCount channel single r (Some 0%Z) =
       processSwitchState switchesCount channel single switches (Some 0%Z)).
Proof.
  intros Hcount.
  assert (∀ l, processSwitchState switchesCount channel single l (Some 0%Z) =
               (s <-- read l 0 ;;
                Ok (if String.eqb s "on" then (true, Answer (Some 1))
                    else if String.eqb s "off" then (true, Answer (Some 0))
                    else (false, AnswerError "API returned an unknown status for device"))))
    as Hproc.
  { intros l. unfold processSwitchState.
    rewrite (proj2 (Z.ltb_lt 1 switchesCount) Hcount). reflexivity. }
  split.
  - intros isOn. unfold setFanLightState.
    destruct (write_switch 0 _ switches) as [r0|] eqn:W; [|discriminate].
    simpl bind. intros Hr.
    assert (r = r0) as -> by (destruct outcome; by injection Hr as <- _).
    split.
    + apply getFanSpeed_reads; by eapply read_write_ne.
    + rewrite Hproc, (read_write_eq _ _ _ _ W). by destruct isOn.
  - intros value Hr. rewrite !Hproc.
    by rewrite (setFanSpeed_frame _ _ _ _ _ Hr).
Qed.

Lemma fan_and_light_are_independent_witness :
  ∃ r ev,
    setFanLightState true Done (Samples.relays "off" "on") = Ok (r, ev) ∧
    getFanSpeed r = getFanSpeed (Samples.relays "off" "on").
Proof.
  assert (∃ r ev, setFanLightState true Done (Samples.relays "off" "on") = Ok (r, ev))
    as (r & ev & Hrun) by (eexists _, _; reflexivity).
  destruct (fan_and_light_are_independent (Samples.relays "off" "on") r ev Done
              4 0 None) as [Hlight _]; [lia|].
  exists r, ev. split; [exact Hrun|apply (Hlight true Hrun)].
Defined.

(** ** Channel counts *)

Lemma lookupS_range (k : string) (l : list (string * Z)) (lo hi : Z) :
  Forall (λ p, (lo ≤ p.2 ≤ hi)%Z) l →
  match Devices.lookupS k l with Some n => (lo ≤ n ≤ hi)%Z | None => True end.
Proof.
  induction 1 as [|[k' v] l Hv _ IH]; simpl; [done|].
  by destruct (String.eqb k k').
Qed.

(** X25.  Every device has between 0 and 4 channels; a device whose uiid
    is not in the table, or whose type has no entry, has 0.  The switch
    count kept for an accessory is therefore between 1 and 4, and it is more
    than 1 exactly when the device has several channels. *)
Theorem channel_count_bounds (uiid : Z) :
  (0 ≤ Devices.getDeviceChannelCount uiid ≤ 4)%Z ∧
  (Devices.lookupZ uiid Devices.MAPPING = None →
     Devices.getDeviceTypeByUiid uiid = ""%string ∧
     Devices.getDeviceChannelCount uiid = 0%Z) ∧
  (1 ≤ Devices.addAccessory_switches uiid ≤ 4)%Z ∧
  ((1 < Devices.addAccessory_switches uiid)%Z ↔
   (1 < Devices.getDeviceChannelCount uiid)%Z).
Proof.
  assert (0 ≤ Devices.getDeviceChannelCount uiid ≤ 4)%Z as Hb.
  { unfold Devices.getDeviceChannelCount, Devices.getDeviceChannelCountByType.
    pose proof (lookupS_range (Devices.getDeviceTypeByUiid uiid)
                  Devices.DEVICE_CHANNEL_LENGTH 1 4) as H.
    destruct (Devices.lookupS _ _); simpl; [|lia].
    assert (1 ≤ z ≤ 4)%Z; [|lia]. apply H.
    unfold Devices.DEVICE_CHANNEL_LENGTH. repeat constructor; simpl; lia. }
  split; [exact Hb|]. split.
  - intros Hnone. unfold Devices.getDeviceChannelCount, Devices.getDeviceTypeByUiid.
    rewrite Hnone. split; reflexivity.
  - unfold Devices.addAccessory_switches.
    destruct (Z.ltb_spec 1 (Devices.getDeviceChannelCount uiid)); split; lia.
Qed.

Lemma channel_count_bounds_witness :
  Devices.getDeviceTypeByUiid 9999 = ""%string ∧
  Devices.getDeviceChannelCount 9999 = 0%Z.
Proof.
  apply (channel_count_bounds 9999). reflexivity.
Defined.

End FanFacts.
